(** * AISB Student Management System: grading, aggregation and selection

    A shallow embedding of the deterministic core of the repository
    (src/agents/quiz_grader.py, src/agents/video_analyzer.py,
    src/utils/video_utils.py, src/database/local_storage.py) together with
    the properties its specification states about it. *)

From Stdlib Require Import ZArith QArith Qround Qabs List Permutation String Ascii Bool Lia Lqa.
Import ListNotations.

Local Open Scope Z_scope.

(** ** Python numbers

    Scores are Python [int]s and [float]s.  A finite float is a rational
    number, and every float operation returns the exact result rounded to
    the nearest binary64 value, ties to even.  The module below is that
    arithmetic: values are rationals in lowest terms, [rnd] is the binary64
    rounding, and [fmul], [fadd], [fdiv] are the rounded operations.
    Overflow to infinity, NaN and the sign of zero are outside the model. *)
Module Float64.

(** [pow2 e] is 2^e for any integer exponent. *)
Definition pow2 (e : Z) : Q :=
  if 0 <=? e then inject_Z (2 ^ e) else / inject_Z (2 ^ (- e)).

(** [ilog2 q] is floor(log2 q) for a positive rational [q]. *)
Definition ilog2 (q : Q) : Z :=
  let k := Z.log2 (Qnum q) - Z.log2 (Zpos (Qden q)) in
  if Qle_bool (pow2 k) q then k else k - 1.

(** Exponent of the unit in the last place of the binade of [q]:
    53 significant bits, smallest exponent -1074 (subnormal numbers). *)
Definition cexp (q : Q) : Z := Z.max (ilog2 (Qabs q) - 52) (-1074).

(** Round to the nearest integer, ties to the even one. *)
Definition rne (q : Q) : Z :=
  let f := Qfloor q in
  match (q - inject_Z f ?= 1 # 2)%Q with
  | Lt => f
  | Gt => f + 1
  | Eq => if Z.even f then f else f + 1
  end.

(** Round to a multiple of 2^e. *)
Definition rnd_at (e : Z) (q : Q) : Q :=
  Qred (inject_Z (rne (q / pow2 e)) * pow2 e).

(** Round to nearest binary64. *)
Definition rnd (q : Q) : Q :=
  if Qeq_bool q 0 then 0%Q else rnd_at (cexp q) q.

(** [float(n)] for a Python int. *)
Definition of_Z (n : Z) : Q := rnd (inject_Z n).

Definition fmul (x y : Q) : Q := rnd (x * y).
Definition fadd (x y : Q) : Q := rnd (x + y).
Definition fdiv (x y : Q) : Q := rnd (x / y).

(** [a / b] on two Python ints: the correctly rounded quotient. *)
Definition int_truediv (a b : Z) : Q := rnd (inject_Z a / inject_Z b).

(** The decimal literal [n / d] as Python reads it ([lit 6 10] is [0.6]). *)
Definition lit (n : Z) (d : positive) : Q := rnd (n # d).

(** Python's [round(x, 2)]: the exact value of [x] is rounded to two
    decimals, ties to even, and the decimal result is read back as a float. *)
Definition round2 (x : Q) : Q := rnd (inject_Z (rne (x * 100)) / 100).

(** Python's [int(x)]: truncation towards zero. *)
Definition py_int (x : Q) : Z :=
  if Qle_bool 0 x then Qfloor x else Qceiling x.

(** Comparisons on numbers, as booleans. *)
Definition geb (x y : Q) : bool := Qle_bool y x.
Definition gtb (x y : Q) : bool := negb (Qle_bool x y).

End Float64.

Import Float64.

(** ** Python strings

    A [string] is a sequence of code points below 256.  On these,
    [str.lower] maps the upper-case letters A-Z and the Latin-1 capitals to
    their lower-case forms, and [str.isspace] holds of the characters below. *)
Module PyStr.

Definition is_space (c : ascii) : bool :=
  let n := nat_of_ascii c in
  ((9 <=? n) && (n <=? 13) || (28 <=? n) && (n <=? 32)
   || (n =? 133) || (n =? 160))%nat.

Definition lower_char (c : ascii) : ascii :=
  let n := nat_of_ascii c in
  if ((65 <=? n) && (n <=? 90) || (192 <=? n) && (n <=? 214)
      || (216 <=? n) && (n <=? 222))%nat
  then ascii_of_nat (n + 32) else c.

Fixpoint lower (s : string) : string :=
  match s with
  | EmptyString => EmptyString
  | String c r => String (lower_char c) (lower r)
  end.

Fixpoint lstrip (s : string) : string :=
  match s with
  | EmptyString => EmptyString
  | String c r => if is_space c then lstrip r else s
  end.

Fixpoint all_space (s : string) : bool :=
  match s with
  | EmptyString => true
  | String c r => is_space c && all_space r
  end.

Fixpoint rstrip (s : string) : string :=
  match s with
  | EmptyString => EmptyString
  | String c r => if all_space s then EmptyString else String c (rstrip r)
  end.

Definition strip (s : string) : string := rstrip (lstrip s).

(** [s.startswith(p)]. *)
Fixpoint starts_with (p s : string) : bool :=
  match p, s with
  | EmptyString, _ => true
  | String a p', String b s' => Ascii.eqb a b && starts_with p' s'
  | String _ _, EmptyString => false
  end.

(** [needle in s]. *)
Fixpoint contains (needle s : string) : bool :=
  starts_with needle s ||
  match s with
  | EmptyString => false
  | String _ r => contains needle r
  end.

(** [s.split()]: the maximal runs of non-space characters.  [cur] is the
    word being read. *)
Fixpoint split_from (cur : string) (s : string) : list string :=
  match s with
  | EmptyString => match cur with EmptyString => [] | _ => [cur] end
  | String c r =>
      if is_space c
      then match cur with
           | EmptyString => split_from EmptyString r
           | _ => cur :: split_from EmptyString r
           end
      else split_from (cur ++ String c EmptyString) r
  end.

Definition split (s : string) : list string := split_from EmptyString s.

(** [len(s.split())]. *)
Definition word_count (s : string) : nat := List.length (split s).

End PyStr.

Local Open Scope string_scope.

(** ** Quiz grading (src/agents/quiz_grader.py) *)
Module QuizGrader.

(** [QuizGraderAgent._calculate_letter_grade]. *)
Definition _calculate_letter_grade (percentage : Q) : string :=
  if geb percentage 90 then "A"
  else if geb percentage 80 then "B"
  else if geb percentage 70 then "C"
  else if geb percentage 60 then "D"
  else "F".

(** A question of a quiz; the grader only enumerates the questions. *)
Record Question := mkQuestion {
  question : string;
  options : list string;
  correct_answer : string;
  explanation : string
}.

(** One entry of ["question_results"]. *)
Record QuestionResult := mkQuestionResult {
  question_number : nat;
  student_answer : string;
  qr_correct_answer : string;
  is_correct : bool;
  points_earned : nat;
  feedback : string
}.

(** The dictionary returned by the grader.  The formatted sentence of
    ["overall_feedback"] is not part of the model. *)
Record Grading := mkGrading {
  total_questions : nat;
  correct_answers : nat;
  score_percentage : Q;
  question_results : list QuestionResult;
  grade : string
}.

(** [student_answer.strip().lower() == correct_answer.strip().lower()]. *)
Definition answers_match (student correct : string) : bool :=
  String.eqb (PyStr.lower (PyStr.strip student)) (PyStr.lower (PyStr.strip correct)).

(** The body of the loop for index [i]:
    [xs[i] if i < len(xs) else ""] is [nth i xs ""]. *)
Definition grade_question (student_answers correct_answers : list string)
    (i : nat) : QuestionResult :=
  let student := nth i student_answers "" in
  let correct := nth i correct_answers "" in
  let ok := answers_match student correct in
  {| question_number := (i + 1)%nat;
     student_answer := student;
     qr_correct_answer := correct;
     is_correct := ok;
     points_earned := if ok then 1%nat else 0%nat;
     feedback := if ok then "Correct!"
                 else "Incorrect. The correct answer is: " ++ correct |}.

(** [for i, question in enumerate(questions)], carrying [correct_count]
    and [question_results]. *)
Fixpoint grading_loop (student_answers correct_answers : list string)
    (questions : list Question) (i : nat)
    (acc : nat * list QuestionResult) : nat * list QuestionResult :=
  match questions with
  | [] => acc
  | _ :: rest =>
      let r := grade_question student_answers correct_answers i in
      let correct_count := if is_correct r then S (fst acc) else fst acc in
      grading_loop student_answers correct_answers rest (S i)
        (correct_count, (snd acc ++ [r])%list)
  end.

(** The percentage before it is rounded for the report:
    [(correct_count / len(questions)) * 100 if questions else 0]. *)
Definition raw_percentage (correct_count : nat) (questions : list Question) : Q :=
  match questions with
  | [] => 0
  | _ => fmul (int_truediv (Z.of_nat correct_count) (Z.of_nat (List.length questions)))
              (of_Z 100)
  end.

(** [QuizGraderAgent._create_basic_grading]. *)
Definition _create_basic_grading (student_answers correct_answers : list string)
    (questions : list Question) : Grading :=
  let '(correct_count, results) :=
    grading_loop student_answers correct_answers questions 0 (0%nat, []) in
  let percentage := raw_percentage correct_count questions in
  {| total_questions := List.length questions;
     correct_answers := correct_count;
     score_percentage := round2 percentage;
     question_results := results;
     grade := _calculate_letter_grade percentage |}.

(** [QuizGraderAgent._generate_mock_grading] ignores the question type. *)
Definition _generate_mock_grading (student_answers correct_answers : list string)
    (questions : list Question) (question_type : string) : Grading :=
  _create_basic_grading student_answers correct_answers questions.

End QuizGrader.

(** ** Video analysis (src/agents/video_analyzer.py) *)
Module VideoAnalyzer.

(** [VideoAnalyzerAgent._calculate_letter_grade]. *)
Definition _calculate_letter_grade (percentage : Q) : string :=
  if geb percentage 90 then "A"
  else if geb percentage 80 then "B"
  else if geb percentage 70 then "C"
  else if geb percentage 60 then "D"
  else "F".

(** *** Link validation

    The three patterns of [drive_patterns] are a literal followed by the
    capture group [([a-zA-Z0-9_-]+)]; the third has the lazy [.*?] and the
    literal [/d/] in between.  [re.search] tries the start positions from
    left to right and returns the first position where the pattern
    matches. *)

(** The character class [[a-zA-Z0-9_-]]. *)
Definition is_id_char (c : ascii) : bool :=
  let n := nat_of_ascii c in
  ((97 <=? n) && (n <=? 122) || (65 <=? n) && (n <=? 90)
   || (48 <=? n) && (n <=? 57) || (n =? 95) || (n =? 45))%nat.

(** The greedy group [[a-zA-Z0-9_-]+] at the start of [s]: the longest run
    of class characters, which must not be empty. *)
Fixpoint take_id (s : string) : string :=
  match s with
  | EmptyString => EmptyString
  | String c r => if is_id_char c then String c (take_id r) else EmptyString
  end.

Definition match_id (s : string) : option string :=
  match take_id s with
  | EmptyString => None
  | id => Some id
  end.

(** Match the literal [p] at the start of [s] and return what follows. *)
Fixpoint drop_prefix (p s : string) : option string :=
  match p, s with
  | EmptyString, _ => Some s
  | String a p', String b s' => if Ascii.eqb a b then drop_prefix p' s' else None
  | String _ _, EmptyString => None
  end.

(** A literal followed by the capture group, at the start of [s]. *)
Definition match_literal_id (p s : string) : option string :=
  match drop_prefix p s with
  | Some rest => match_id rest
  | None => None
  end.

Definition newline : ascii := ascii_of_nat 10.

(** The lazy [.*?] followed by [m], at the start of [s]: [m] is tried after
    0, 1, 2, ... characters, none of which may be a newline. *)
Fixpoint lazy_any (m : string -> option string) (s : string) : option string :=
  match m s with
  | Some g => Some g
  | None =>
      match s with
      | EmptyString => None
      | String c r => if Ascii.eqb c newline then None else lazy_any m r
      end
  end.

(** [re.search]: the first start position at which [m] matches. *)
Fixpoint search (m : string -> option string) (s : string) : option string :=
  match m s with
  | Some g => Some g
  | None =>
      match s with
      | EmptyString => None
      | String _ r => search m r
      end
  end.

Definition drive_file_prefix : string := "https://drive.google.com/file/d/".
Definition drive_open_prefix : string := "https://drive.google.com/open?id=".
Definition docs_prefix : string := "https://docs.google.com/".

(** The three patterns, each as its matcher at a start position. *)
Definition pattern_file (s : string) : option string :=
  match_literal_id drive_file_prefix s.

Definition pattern_open (s : string) : option string :=
  match_literal_id drive_open_prefix s.

Definition pattern_docs (s : string) : option string :=
  match drop_prefix docs_prefix s with
  | Some rest => lazy_any (match_literal_id "/d/") rest
  | None => None
  end.

Definition drive_patterns : list (string -> option string) :=
  [pattern_file; pattern_open; pattern_docs].

(** The loop over [drive_patterns]: the group of the first pattern that
    is found anywhere in the link. *)
Fixpoint first_match (patterns : list (string -> option string))
    (video_link : string) : option string :=
  match patterns with
  | [] => None
  | p :: rest =>
      match search p video_link with
      | Some id => Some id
      | None => first_match rest video_link
      end
  end.

(** The dictionary returned by the validation. *)
Record Validation := mkValidation {
  valid : bool;
  message : string;
  file_id : option string;
  direct_link : option string;
  accessible : option bool
}.

(** [VideoAnalyzerAgent.validate_google_drive_link].  [probe] is the
    outcome of [requests.head]: the status code, or [None] when the request
    raises. *)
Definition validate_google_drive_link (probe : string -> option nat)
    (video_link : string) : Validation :=
  match first_match drive_patterns video_link with
  | None =>
      {| valid := false;
         message := "Invalid Google Drive link format. Please provide a valid Google Drive video link.";
         file_id := None; direct_link := None; accessible := None |}
  | Some id =>
      let link := "https://drive.google.com/file/d/" ++ id ++ "/view" in
      let ok := match probe link with
                | Some code => (code =? 200)%nat || (code =? 302)%nat
                | None => true
                end in
      {| valid := true;
         message := "Valid Google Drive link";
         file_id := Some id; direct_link := Some link; accessible := Some ok |}
  end.

(** *** Mock analysis *)

Record Criterion := mkCriterion {
  score : Q;
  criterion_feedback : string
}.

(** The report of an analysis.  [score] is a Python int here, and [round]
    of an int is that int. *)
Record Analysis := mkAnalysis {
  content_quality : Criterion;
  clarity_communication : Criterion;
  technical_knowledge : Criterion;
  structure_organization : Criterion;
  engagement_delivery : Criterion;
  total_score : Z;
  score_percentage : Z;
  grade : string;
  strengths : list string;
  areas_for_improvement : list string;
  overall_feedback : string
}.

(** The base score chosen from the transcript. *)
Definition base_score (transcript : string) : Z :=
  if PyStr.contains "artificial intelligence" (PyStr.lower transcript)
     || PyStr.contains "machine learning" (PyStr.lower transcript)
  then 78
  else if (80 <? PyStr.word_count transcript)%nat then 72
  else 65.

(** [VideoAnalyzerAgent._generate_mock_analysis]; [jitter] is the value
    drawn by [random.randint(-5, 10)]. *)
Definition _generate_mock_analysis (jitter : Z) (transcript topic : string)
    : Analysis :=
  let score := Z.max 0 (Z.min 100 (base_score transcript + jitter)) in
  {| content_quality :=
       mkCriterion (fmul (of_Z score) (lit 3 10))
         ("Good coverage of " ++ topic ++ " concepts with clear explanations");
     clarity_communication :=
       mkCriterion (fmul (of_Z score) (lit 25 100))
         "Clear and understandable presentation style";
     technical_knowledge :=
       mkCriterion (fmul (of_Z score) (lit 2 10))
         "Demonstrates solid understanding of technical concepts";
     structure_organization :=
       mkCriterion (fmul (of_Z score) (lit 15 100))
         "Well-organized presentation with logical flow";
     engagement_delivery :=
       mkCriterion (fmul (of_Z score) (lit 1 10))
         "Confident delivery with good pacing";
     total_score := score;
     score_percentage := score;
     grade := _calculate_letter_grade (inject_Z score);
     strengths := ["Clear explanations"; "Good technical knowledge";
                   "Well-structured content"];
     areas_for_improvement := ["More examples"; "Deeper technical analysis";
                               "Better conclusion"];
     overall_feedback :=
       "Excellent presentation on " ++ topic ++
       "! You demonstrated strong understanding of the concepts. To improve further, consider adding more real-world examples and diving deeper into technical details. Your communication skills are strong, and the presentation was well-organized. Keep up the great work!" |}.

End VideoAnalyzer.

(** ** Python dictionaries

    A [dict] keeps its keys in insertion order, and assigning to a key that
    is present replaces the value in place.  Dictionaries whose order shows
    in a result are association lists with these operations. *)
Module Dict.

Section Ops.
Context {V : Type}.

Definition dict : Type := list (string * V).

Fixpoint get (k : string) (d : dict) : option V :=
  match d with
  | [] => None
  | (k', v) :: r => if String.eqb k k' then Some v else get k r
  end.

Definition mem (k : string) (d : dict) : bool :=
  match get k d with
  | Some _ => true
  | None => false
  end.

(** [d[k] = v]. *)
Fixpoint set (k : string) (v : V) (d : dict) : dict :=
  match d with
  | [] => [(k, v)]
  | (k', v') :: r =>
      if String.eqb k k' then (k, v) :: r else (k', v') :: set k v r
  end.

Definition keys (d : dict) : list string := map fst d.
Definition values (d : dict) : list V := map snd d.

End Ops.

Arguments dict V : clear implicits.

End Dict.

(** ** The record store (src/database/local_storage.py)

    Each collection is one JSON object from generated identifier to record.
    A record is a dictionary; reading a key that may be missing with
    [record.get(key, default)] is [with_default] on an optional field. *)
Module Store.

Definition with_default {A : Type} (default : A) (field : option A) : A :=
  match field with
  | Some a => a
  | None => default
  end.

(** A record of [results.json]. *)
Record QuizResult := mkQuizResult {
  qr_student_id : option string;
  qr_quiz_id : option string;
  qr_score_percentage : option Q;
  qr_grade : option string;
  qr_feedback : option string;
  qr_status : option string
}.

(** A record of [videos.json]; the analysis fields are missing until the
    video has been analysed. *)
Record VideoSubmission := mkVideoSubmission {
  vs_student_id : option string;
  vs_video_link : option string;
  vs_topic : option string;
  vs_submitted_at : option string;
  vs_status : option string;
  vs_file_id : option string;
  vs_direct_link : option string;
  vs_video_score : option Q;
  vs_video_grade : option string;
  vs_video_feedback : option string
}.

(** A record of [final_results.json]. *)
Record FinalResult := mkFinalResult {
  fr_student_id : string;
  fr_quiz_score : Q;
  fr_video_score : Q;
  fr_total_score : Q;
  fr_final_grade : string;
  fr_selected : bool;
  fr_released_at : string;
  fr_status : string
}.

(** The content of the three files. *)
Record t := mkStore {
  results : Dict.dict QuizResult;
  videos : Dict.dict VideoSubmission;
  final_results : Dict.dict FinalResult
}.

(** [get_all_results] and [get_all_videos]: the records in file order. *)
Definition get_all_results (s : t) : list QuizResult := Dict.values (results s).
Definition get_all_videos (s : t) : list VideoSubmission := Dict.values (videos s).

(** [video_data.get('student_id') == student_id]. *)
Definition is_video_of (student_id : string) (v : VideoSubmission) : bool :=
  match vs_student_id v with
  | Some i => String.eqb i student_id
  | None => false
  end.

(** [get_video_by_student]: the first record of the student. *)
Definition get_video_by_student (student_id : string) (s : t)
    : option VideoSubmission :=
  find (is_video_of student_id) (get_all_videos s).

(** [str(uuid.uuid4())]: a generated identifier, which is never the empty
    string. *)
Record uuid := mkUuid {
  uuid_head : ascii;
  uuid_tail : string
}.

Definition uuid_str (u : uuid) : string := String (uuid_head u) (uuid_tail u).

(** The outcome of one write: [Some u] when the record is saved under the
    fresh identifier [u], [None] when writing the file raises, in which
    case the method prints the error and returns the empty string. *)
Definition write_outcome : Type := option uuid.

(** [add_video_submission]. *)
Definition add_video_submission (io : write_outcome) (v : VideoSubmission)
    (s : t) : string * t :=
  match io with
  | Some u =>
      (uuid_str u,
       {| results := results s;
          videos := Dict.set (uuid_str u) v (videos s);
          final_results := final_results s |})
  | None => ("", s)
  end.


End Store.

(** ** Submission, aggregation, selection and release
    (src/utils/video_utils.py) *)
Module VideoUtils.

Import Store.

(** A call of [email_agent.send_email]; the body of the message is not
    part of the model. *)
Record Email := mkEmail {
  recipient_email : string;
  email_type : string
}.

(** What the managers do to their collaborators: writes handed to the
    store, with their outcome, and messages handed to the email agent. *)
Inductive Event : Type :=
| AddVideoSubmission (v : VideoSubmission) (io : write_outcome)
| AddFinalResult (f : FinalResult) (io : write_outcome)
| SendEmail (e : Email).

(** The state the managers run in: the store and the calls made so far. *)
Record World := mkWorld {
  store : Store.t;
  log : list Event
}.

(** State passing over [World]. *)
Definition M (A : Type) : Type := World -> A * World.

Definition ret {A : Type} (a : A) : M A := fun w => (a, w).

Definition bind {A B : Type} (m : M A) (k : A -> M B) : M B :=
  fun w => let '(a, w') := m w in k a w'.

Notation "x <- m ;; k" := (bind m (fun x => k))
  (at level 61, m at next level, right associativity).
Notation "m ;;; k" := (bind m (fun _ => k))
  (at level 61, right associativity).

(** Read the store. *)
Definition read {A : Type} (f : Store.t -> A) : M A :=
  fun w => (f (store w), w).

(** Hand a write to the store and record the call. *)
Definition write (ev : Event) (f : Store.t -> string * Store.t) : M string :=
  fun w => let '(id, s') := f (store w) in
           (id, {| store := s'; log := log w ++ [ev] |}).

Definition send_email (e : Email) : M unit :=
  fun w => (tt, {| store := store w; log := log w ++ [SendEmail e] |}).

(** Truth value of a Python string. *)
Definition truthy (s : string) : bool := negb (String.eqb s "").

(** *** VideoSubmissionManager *)

Record SubmitResult := mkSubmitResult {
  success : bool;
  submit_message : string;
  video_id : option string
}.

(** [VideoSubmissionManager.submit_video].  [probe] is the outcome of the
    reachability request, [now] the clock and [io] the outcome of the write. *)
Definition submit_video (probe : string -> option nat) (now : string)
    (io : write_outcome) (student_id student_email video_link topic : string)
    : M SubmitResult :=
  let validation := VideoAnalyzer.validate_google_drive_link probe video_link in
  if negb (VideoAnalyzer.valid validation) then
    ret {| success := false;
           submit_message := VideoAnalyzer.message validation;
           video_id := None |}
  else
    existing_video <- read (get_video_by_student student_id) ;;
    match existing_video with
    | Some _ =>
        ret {| success := false;
               submit_message := "You have already submitted a video. Only one submission is allowed per student.";
               video_id := None |}
    | None =>
        let video_data :=
          {| vs_student_id := Some student_id;
             vs_video_link := Some video_link;
             vs_topic := Some topic;
             vs_submitted_at := Some now;
             vs_status := Some "submitted";
             vs_file_id := Some (with_default "" (VideoAnalyzer.file_id validation));
             vs_direct_link :=
               Some (with_default video_link (VideoAnalyzer.direct_link validation));
             vs_video_score := None;
             vs_video_grade := None;
             vs_video_feedback := None |} in
        new_id <- write (AddVideoSubmission video_data io)
                        (add_video_submission io video_data) ;;
        if truthy new_id then
          send_email {| recipient_email := student_email;
                        email_type := "video_submission_confirmation" |} ;;;
          ret {| success := true;
                 submit_message := "Video submitted successfully! You will receive a confirmation email shortly.";
                 video_id := Some new_id |}
        else
          ret {| success := false;
                 submit_message := "Failed to save video submission. Please try again.";
                 video_id := None |}
    end.

(** *** FinalResultsManager *)

(** An entry of [combined_results]; ["video_link"] is only set by the
    merge of a video. *)
Record CombinedResult := mkCombinedResult {
  student_id : string;
  quiz_score : Q;
  quiz_grade : string;
  quiz_feedback : string;
  quiz_submitted : bool;
  video_score : Q;
  video_grade : string;
  video_feedback : string;
  video_submitted : bool;
  total_score : Q;
  final_grade : string;
  video_link : option string
}.

(** [FinalResultsManager._calculate_final_grade]. *)
Definition _calculate_final_grade (score : Q) : string :=
  if geb score 90 then "A"
  else if geb score 80 then "B"
  else if geb score 70 then "C"
  else if geb score 60 then "D"
  else "F".

(** The entry a quiz result seeds. *)
Definition seed_entry (sid : string) (quiz_result : QuizResult) : CombinedResult :=
  {| student_id := sid;
     quiz_score := with_default 0%Q (qr_score_percentage quiz_result);
     quiz_grade := with_default "F" (qr_grade quiz_result);
     quiz_feedback := with_default "" (qr_feedback quiz_result);
     quiz_submitted := true;
     video_score := 0;
     video_grade := "Not Submitted";
     video_feedback := "No video submission";
     video_submitted := false;
     total_score := 0;
     final_grade := "Incomplete";
     video_link := None |}.

(** First loop: [if student_id: combined_results[student_id] = {...}]. *)
Definition process_quiz_result (combined : Dict.dict CombinedResult)
    (quiz_result : QuizResult) : Dict.dict CombinedResult :=
  let sid := with_default "" (qr_student_id quiz_result) in
  if truthy sid then Dict.set sid (seed_entry sid quiz_result) combined
  else combined.

(** [combined_results[student_id].update({...})]. *)
Definition merge_video (video_result : VideoSubmission) (entry : CombinedResult)
    : CombinedResult :=
  {| student_id := student_id entry;
     quiz_score := quiz_score entry;
     quiz_grade := quiz_grade entry;
     quiz_feedback := quiz_feedback entry;
     quiz_submitted := quiz_submitted entry;
     video_score := with_default 0%Q (vs_video_score video_result);
     video_grade := with_default "Pending" (vs_video_grade video_result);
     video_feedback := with_default "" (vs_video_feedback video_result);
     video_submitted := true;
     total_score := total_score entry;
     final_grade := final_grade entry;
     video_link := Some (with_default "" (vs_video_link video_result)) |}.

(** Second loop: [if student_id in combined_results: ...update(...)]. *)
Definition process_video_result (combined : Dict.dict CombinedResult)
    (video_result : VideoSubmission) : Dict.dict CombinedResult :=
  let sid := with_default "" (vs_student_id video_result) in
  match Dict.get sid combined with
  | Some entry => Dict.set sid (merge_video video_result entry) combined
  | None => combined
  end.

Definition quiz_weight : Q := lit 6 10.
Definition video_weight : Q := lit 4 10.

(** The total before rounding. *)
Definition weighted_total (result : CombinedResult) : Q :=
  if video_submitted result
  then fadd (fmul (quiz_score result) quiz_weight)
            (fmul (video_score result) video_weight)
  else fmul (quiz_score result) quiz_weight.

(** Third loop: the total, rounded for the entry, and the final grade of
    the total before rounding. *)
Definition finalize (result : CombinedResult) : CombinedResult :=
  let total := weighted_total result in
  {| student_id := student_id result;
     quiz_score := quiz_score result;
     quiz_grade := quiz_grade result;
     quiz_feedback := quiz_feedback result;
     quiz_submitted := quiz_submitted result;
     video_score := video_score result;
     video_grade := video_grade result;
     video_feedback := video_feedback result;
     video_submitted := video_submitted result;
     total_score := round2 total;
     final_grade := _calculate_final_grade total;
     video_link := video_link result |}.

(** The three loops on the two record lists. *)
Definition combine (quiz_results : list QuizResult)
    (video_results : list VideoSubmission) : list CombinedResult :=
  let seeded := fold_left process_quiz_result quiz_results [] in
  let merged := fold_left process_video_result video_results seeded in
  map finalize (Dict.values merged).

(** [FinalResultsManager.calculate_combined_results]. *)
Definition calculate_combined_results : M (list CombinedResult) :=
  quiz_results <- read get_all_results ;;
  video_results <- read get_all_videos ;;
  ret (combine quiz_results video_results).

(** [sorted(combined_results, key=lambda x: x["total_score"], reverse=True)].
    Python's sort is stable, also with [reverse=True]; on keys that are
    totally ordered the result of a stable sort does not depend on the
    algorithm, and insertion from the right computes it: an entry goes
    behind the entries with a strictly larger key and in front of all
    others. *)
Fixpoint insert_desc (x : CombinedResult) (l : list CombinedResult)
    : list CombinedResult :=
  match l with
  | [] => [x]
  | y :: r =>
      if gtb (total_score y) (total_score x) then y :: insert_desc x r
      else x :: l
  end.

Definition sorted_desc (l : list CombinedResult) : list CombinedResult :=
  fold_right insert_desc [] l.

(** [max(1, int(total_students * (percentage / 100)))]. *)
Definition num_to_select (total_students : nat) (percentage : Q) : Z :=
  Z.max 1 (py_int (fmul (of_Z (Z.of_nat total_students))
                        (fdiv percentage (of_Z 100)))).

(** [FinalResultsManager.select_top_students]. *)
Definition select_top_students (percentage : Q) : M (list CombinedResult) :=
  combined_results <- calculate_combined_results ;;
  let sorted_results := sorted_desc combined_results in
  let total_students := List.length sorted_results in
  ret (firstn (Z.to_nat (num_to_select total_students percentage)) sorted_results).






End VideoUtils.

(** ** Video analysis without language model (src/agents/video_analyzer.py)

    The analysis asks the language model when one is configured and falls
    back on the functions below when there is none or when the call fails.
    This module is the path without language model. *)
Module TranscriptAnalysis.

(** The three texts of [mock_transcripts]. *)
Definition mock_transcript_1 : string :=
  "Hello, my name is John and I'm here to talk about artificial intelligence. 
                AI is a fascinating field that involves creating machines that can think and learn like humans. 
                There are different types of AI including machine learning, deep learning, and neural networks. 
                Machine learning algorithms can analyze data and make predictions. 
                Deep learning uses neural networks with multiple layers to process complex information. 
                AI has many applications in healthcare, finance, transportation, and education. 
                Thank you for listening to my presentation about artificial intelligence.".

Definition mock_transcript_2 : string :=
  "Good morning, I want to discuss machine learning fundamentals. 
                Machine learning is a subset of artificial intelligence that enables computers to learn from data. 
                There are three main types: supervised learning, unsupervised learning, and reinforcement learning. 
                Supervised learning uses labeled data to train models for prediction tasks. 
                Unsupervised learning finds patterns in data without labels. 
                Reinforcement learning learns through trial and error with rewards and penalties. 
                Popular algorithms include linear regression, decision trees, and support vector machines. 
                Machine learning is transforming industries and creating new opportunities.".

Definition mock_transcript_3 : string :=
  "Hi everyone, today I'll explain neural networks and deep learning. 
                Neural networks are inspired by how the human brain processes information. 
                They consist of interconnected nodes called neurons that process and transmit data. 
                Deep learning uses neural networks with many hidden layers to learn complex patterns. 
                Convolutional neural networks are great for image recognition tasks. 
                Recurrent neural networks work well with sequential data like text and speech. 
                Training requires large datasets and significant computational power. 
                Deep learning has revolutionized computer vision, natural language processing, and robotics.".

(** The element [random.choice] draws from a list of three. *)
Inductive Draw : Type := First | Second | Third.

(** [VideoAnalyzerAgent.extract_transcript_from_video]. *)
Definition extract_transcript_from_video (draw : Draw) (video_link : string) : string :=
  match draw with
  | First => mock_transcript_1
  | Second => mock_transcript_2
  | Third => mock_transcript_3
  end.

(** [VideoAnalyzerAgent._analyze_transcript] when [self.llm] is [None]. *)
Definition _analyze_transcript (jitter : Z) (transcript topic : string)
    : VideoAnalyzer.Analysis :=
  VideoAnalyzer._generate_mock_analysis jitter transcript topic.

(** The dictionary returned by [analyze_video_content]; the keys after
    [grade] are only present on success. *)
Record ContentAnalysis := mkContentAnalysis {
  success : bool;
  message : string;
  score : Z;
  grade : string;
  transcript : option string;
  analysis : option VideoAnalyzer.Analysis;
  feedback : option string;
  video_link : option string;
  file_id : option string
}.

(** [VideoAnalyzerAgent.analyze_video_content]. *)
Definition analyze_video_content (probe : string -> option nat) (draw : Draw)
    (jitter : Z) (student_id video_link topic : string) : ContentAnalysis :=
  let validation := VideoAnalyzer.validate_google_drive_link probe video_link in
  if negb (VideoAnalyzer.valid validation) then
    {| success := false; message := VideoAnalyzer.message validation;
       score := 0; grade := "F";
       transcript := None; analysis := None; feedback := None;
       video_link := None; file_id := None |}
  else
    let text := extract_transcript_from_video draw video_link in
    if PyStr.contains "Error:" text then
      {| success := false; message := "Could not process video content";
         score := 0; grade := "F";
         transcript := None; analysis := None; feedback := None;
         video_link := None; file_id := None |}
    else
      let analysis_result := _analyze_transcript jitter text topic in
      {| success := true; message := "Video analysis completed successfully";
         score := VideoAnalyzer.score_percentage analysis_result;
         grade := VideoAnalyzer.grade analysis_result;
         transcript := Some text;
         analysis := Some analysis_result;
         feedback := Some (VideoAnalyzer.overall_feedback analysis_result);
         video_link := Some video_link;
         file_id := Some (Store.with_default "" (VideoAnalyzer.file_id validation)) |}.

(** Python's [min(a, b)] and [max(a, b)]: the first argument unless the
    second is strictly smaller, respectively larger. *)
Definition py_min (a b : Q) : Q := if gtb a b then b else a.
Definition py_max (a b : Q) : Q := if gtb b a then b else a.

(** The score [_create_basic_analysis] gives to a text of [word_count]
    words. *)
Definition basic_score (word_count : nat) : Q :=
  if (100 <? word_count)%nat
  then py_min 85 (fadd (of_Z 60)
                       (fmul (of_Z (Z.of_nat word_count - 100)) (lit 2 10)))
  else py_max 40 (fmul (of_Z (Z.of_nat word_count)) (lit 6 10)).

(** The report of [_create_basic_analysis]; the sentence of
    ["overall_feedback"], which prints the score, is not part of the model. *)
Record BasicAnalysis := mkBasicAnalysis {
  content_quality : VideoAnalyzer.Criterion;
  clarity_communication : VideoAnalyzer.Criterion;
  technical_knowledge : VideoAnalyzer.Criterion;
  structure_organization : VideoAnalyzer.Criterion;
  engagement_delivery : VideoAnalyzer.Criterion;
  total_score : Q;
  score_percentage : Q;
  basic_grade : string;
  strengths : list string;
  areas_for_improvement : list string
}.

(** [VideoAnalyzerAgent._create_basic_analysis]. *)
Definition _create_basic_analysis (result : string) : BasicAnalysis :=
  let value := basic_score (PyStr.word_count result) in
  {| content_quality :=
       VideoAnalyzer.mkCriterion (fmul value (lit 3 10))
         "Content analysis based on length and structure";
     clarity_communication :=
       VideoAnalyzer.mkCriterion (fmul value (lit 25 100)) "Communication assessment";
     technical_knowledge :=
       VideoAnalyzer.mkCriterion (fmul value (lit 2 10)) "Technical content evaluation";
     structure_organization :=
       VideoAnalyzer.mkCriterion (fmul value (lit 15 100)) "Structure and flow assessment";
     engagement_delivery :=
       VideoAnalyzer.mkCriterion (fmul value (lit 1 10)) "Delivery evaluation";
     total_score := value;
     score_percentage := round2 value;
     basic_grade := VideoAnalyzer._calculate_letter_grade value;
     strengths := ["Clear presentation"; "Good content coverage"];
     areas_for_improvement := ["More technical depth"; "Better structure"] |}.

End TranscriptAnalysis.

(** ** More of the record store (src/database/local_storage.py)

    The methods that change a record first load the collection, change it
    and write it back; when writing raises they print the error and return
    [False], and the file stays as it was.  [saved] tells whether the write
    went through. *)
Module LocalStorage.

Import Store.








(** The keys of [analysis_data] that the video records of the model carry. *)
Record AnalysisData := mkAnalysisData {
  ad_video_score : Q;
  ad_video_grade : string;
  ad_video_feedback : string;
  ad_status : string
}.

(** [videos[video_id].update(analysis_data)]. *)
Definition apply_analysis (data : AnalysisData) (v : VideoSubmission) : VideoSubmission :=
  {| vs_student_id := vs_student_id v;
     vs_video_link := vs_video_link v;
     vs_topic := vs_topic v;
     vs_submitted_at := vs_submitted_at v;
     vs_status := Some (ad_status data);
     vs_file_id := vs_file_id v;
     vs_direct_link := vs_direct_link v;
     vs_video_score := Some (ad_video_score data);
     vs_video_grade := Some (ad_video_grade data);
     vs_video_feedback := Some (ad_video_feedback data) |}.



End LocalStorage.

(** ** The analysis of a submitted video (src/utils/video_utils.py) *)
Module VideoAnalysisFlow.

Import Store.



End VideoAnalysisFlow.

(** ** Registration and login (src/utils/auth.py) *)
Module Auth.

Import Store.

(** A record of [students.json]. *)
Record Student := mkStudent {
  name : option string;
  email : option string;
  password : option string;
  registration_date : option string;
  status : option string
}.

(** [student_data.get('email') == email]. *)
Definition has_email (e : string) (st : Student) : bool :=
  match email st with
  | Some e' => String.eqb e' e
  | None => false
  end.

(** [LocalStorageManager.add_student]. *)
Definition add_student (io : write_outcome) (st : Student) (students : Dict.dict Student)
    : string * Dict.dict Student :=
  match io with
  | Some u => (uuid_str u, Dict.set (uuid_str u) st students)
  | None => ("", students)
  end.

(** [LocalStorageManager.get_student_by_email]: the first record with the
    email, together with the identifier it is stored under, which the
    method puts into the record as ['id']. *)
Definition get_student_by_email (e : string) (students : Dict.dict Student)
    : option (string * Student) :=
  find (fun kv => has_email e (snd kv)) students.

(** The two functions of the [bcrypt] library that the manager calls.
    Both can raise: the result is either the value or the text of the
    exception. *)
Record Bcrypt := mkBcrypt {
  hashpw : string -> string -> string + string;
  checkpw : string -> string -> bool + string
}.

(** What is known of [bcrypt]: a password passes the check against a hash
    made from it. *)
Definition sound (B : Bcrypt) : Prop :=
  forall pw salt h, hashpw B pw salt = inl h -> checkpw B pw h = inl true.

Record RegisterResult := mkRegisterResult {
  reg_success : bool;
  reg_message : string;
  reg_student_id : option string
}.

(** [AuthManager.register_student].  [salt] is what [bcrypt.gensalt]
    draws, [now] the clock and [io] the outcome of the write. *)
Definition register_student (B : Bcrypt) (salt now : string) (io : write_outcome)
    (student_name student_email pw : string) (students : Dict.dict Student)
    : RegisterResult * Dict.dict Student :=
  match get_student_by_email student_email students with
  | Some _ =>
      ({| reg_success := false;
          reg_message := "Student with this email already exists";
          reg_student_id := None |}, students)
  | None =>
      match hashpw B pw salt with
      | inr e =>
          ({| reg_success := false;
              reg_message := "Registration error: " ++ e;
              reg_student_id := None |}, students)
      | inl hashed_password =>
          let student_data :=
            {| name := Some student_name;
               email := Some student_email;
               password := Some hashed_password;
               registration_date := Some now;
               status := Some "active" |} in
          let '(student_id, students') := add_student io student_data students in
          if VideoUtils.truthy student_id then
            ({| reg_success := true;
                reg_message := "Registration successful";
                reg_student_id := Some student_id |}, students')
          else
            ({| reg_success := false;
                reg_message := "Failed to register student";
                reg_student_id := None |}, students')
      end
  end.

(** The ["student"] entry of a successful login. *)
Record LoggedIn := mkLoggedIn {
  user_id : string;
  user_name : option string;
  user_email : option string
}.

Record LoginResult := mkLoginResult {
  login_success : bool;
  login_message : string;
  student : option LoggedIn
}.

(** [AuthManager.login_student]. *)
Definition login_student (B : Bcrypt) (student_email pw : string)
    (students : Dict.dict Student) : LoginResult :=
  match get_student_by_email student_email students with
  | None =>
      {| login_success := false; login_message := "Student not found";
         student := None |}
  | Some (id, st) =>
      match checkpw B pw (with_default "" (password st)) with
      | inl true =>
          {| login_success := true; login_message := "Login successful";
             student := Some {| user_id := id; user_name := name st;
                                user_email := email st |} |}
      | inl false =>
          {| login_success := false; login_message := "Invalid password";
             student := None |}
      | inr e =>
          {| login_success := false; login_message := "Login error: " ++ e;
             student := None |}
      end
  end.

End Auth.

From Stdlib Require DecimalString.

(** ** Quiz generation without language model (src/agents/quiz_generator.py) *)
Module QuizGenerator.

(** [str(n)] for a Python int. *)
Definition str_of_int (n : Z) : string := DecimalString.NilZero.string_of_int (Z.to_int n).

(** A question of a generated quiz. *)
Record Question := mkQuestion {
  question_number : Z;
  question : string;
  options : list string;
  correct_answer : string;
  explanation : string
}.

Record Quiz := mkQuiz {
  topic : string;
  difficulty : string;
  question_type : string;
  total_questions : Z;
  questions : list Question
}.

(** [range(n)]. *)
Definition range (n : Z) : list Z := map Z.of_nat (seq 0 (Z.to_nat n)).

(** The question that the loop of [_generate_mock_quiz] builds for [i]. *)
Definition mock_question (topic difficulty question_type : string) (i : Z) : Question :=
  if String.eqb question_type "MCQ" then
    {| question_number := i + 1;
       question := "Sample " ++ difficulty ++ " MCQ question " ++ str_of_int (i + 1)
                   ++ " about " ++ topic ++ "?";
       options := ["A) Option 1"; "B) Option 2"; "C) Option 3"; "D) Option 4"];
       correct_answer := "A";
       explanation := "This is the explanation for question " ++ str_of_int (i + 1) |}
  else if String.eqb question_type "True/False" then
    {| question_number := i + 1;
       question := "Sample " ++ difficulty ++ " True/False statement " ++ str_of_int (i + 1)
                   ++ " about " ++ topic ++ ".";
       options := ["True"; "False"];
       correct_answer := "True";
       explanation := "This is the explanation for question " ++ str_of_int (i + 1) |}
  else
    {| question_number := i + 1;
       question := "Sample " ++ difficulty ++ " Q/A question " ++ str_of_int (i + 1)
                   ++ " about " ++ topic ++ "?";
       options := [];
       correct_answer := "Sample answer for question " ++ str_of_int (i + 1);
       explanation := "This is the explanation for question " ++ str_of_int (i + 1) |}.

(** [QuizGeneratorAgent._generate_mock_quiz]. *)
Definition _generate_mock_quiz (topic : string) (num_questions : Z)
    (difficulty question_type : string) : Quiz :=
  {| topic := topic;
     difficulty := difficulty;
     question_type := question_type;
     total_questions := num_questions;
     questions := map (mock_question topic difficulty question_type) (range num_questions) |}.

(** [text.split(sep)] for a separator of one character. *)
Fixpoint split_on (sep : ascii) (s : string) : list string :=
  match s with
  | EmptyString => [EmptyString]
  | String c r =>
      if Ascii.eqb c sep then EmptyString :: split_on sep r
      else match split_on sep r with
           | [] => [String c EmptyString]
           | w :: ws => String c w :: ws
           end
  end.

(** [s[2:]]. *)
Definition drop2 (s : string) : string :=
  match s with
  | String _ (String _ r) => r
  | _ => EmptyString
  end.

(** [line.startswith((p1, p2, ...))]. *)
Definition starts_with_any (prefixes : list string) (line : string) : bool :=
  existsb (fun p => PyStr.starts_with p line) prefixes.

Definition number_prefixes : list string :=
  ["1."; "2."; "3."; "4."; "5."; "6."; "7."; "8."; "9."; "10."].

Definition option_prefixes : list string := ["A)"; "B)"; "C)"; "D)"].

(** The variables of the loop of [_create_quiz_from_text];
    [current_question] is [None] while it is the empty dictionary. *)
Record Parser := mkParser {
  current_question : option Question;
  parsed : list Question;
  question_count : Z
}.

(** [if current_question and question_count < num_questions: ...]. *)
Definition flush (num_questions : Z) (st : Parser) : Parser :=
  match current_question st with
  | Some q =>
      if (question_count st <? num_questions)%Z
      then {| current_question := current_question st;
              parsed := (parsed st ++ [q])%list;
              question_count := question_count st + 1 |}
      else st
  | None => st
  end.

Definition add_option (line : string) (q : Question) : Question :=
  {| question_number := question_number q;
     question := question q;
     options := (options q ++ [line])%list;
     correct_answer := correct_answer q;
     explanation := explanation q |}.

(** One turn of the loop. *)
Definition parse_line (num_questions : Z) (st : Parser) (raw : string) : Parser :=
  let line := PyStr.strip raw in
  if starts_with_any number_prefixes line then
    let st' := flush num_questions st in
    {| current_question :=
         Some {| question_number := question_count st' + 1;
                 question := PyStr.strip (drop2 line);
                 options := [];
                 correct_answer := "A";
                 explanation := "Generated explanation" |};
       parsed := parsed st';
       question_count := question_count st' |}
  else if starts_with_any option_prefixes line then
    match current_question st with
    | Some q =>
        {| current_question := Some (add_option line q);
           parsed := parsed st;
           question_count := question_count st |}
    | None => st
    end
  else st.

Definition newline : ascii := ascii_of_nat 10.

(** [QuizGeneratorAgent._create_quiz_from_text]. *)
Definition _create_quiz_from_text (text topic difficulty question_type : string)
    (num_questions : Z) : Quiz :=
  let lines := split_on newline text in
  let st := fold_left (parse_line num_questions) lines
              {| current_question := None; parsed := []; question_count := 0 |} in
  let questions := parsed (flush num_questions st) in
  {| topic := topic;
     difficulty := difficulty;
     question_type := question_type;
     total_questions := Z.of_nat (List.length questions);
     questions := questions |}.

End QuizGenerator.

(** ** Reading the answer of the language model (src/agents/quiz_generator.py) *)
Module QuizParsing.

(** [s.find(c)] for a character: the first index, or -1. *)
Fixpoint find_from (c : ascii) (s : string) (i : Z) : Z :=
  match s with
  | EmptyString => -1
  | String a r => if Ascii.eqb a c then i else find_from c r (i + 1)
  end.

Definition find (c : ascii) (s : string) : Z := find_from c s 0.

(** [s.rfind(c)] for a character: the last index, or -1. *)
Fixpoint rfind_from (c : ascii) (s : string) (i last : Z) : Z :=
  match s with
  | EmptyString => last
  | String a r => rfind_from c r (i + 1) (if Ascii.eqb a c then i else last)
  end.

Definition rfind (c : ascii) (s : string) : Z := rfind_from c s 0 (-1).

(** [s[a:b]] for indices that are not negative. *)
Definition slice (a b : Z) (s : string) : string :=
  substring (Z.to_nat a) (Z.to_nat (b - a)) s.

(** What [_parse_quiz_result] returns: the value that [json.loads] read,
    whatever it is, or a quiz that the agent built itself. *)
Inductive Parsed (J : Type) : Type :=
| FromJson (quiz_data : J)
| Built (quiz : QuizGenerator.Quiz).

Arguments FromJson {J} quiz_data.
Arguments Built {J} quiz.

(** [QuizGeneratorAgent._parse_quiz_result].  [json_loads] is [json.loads],
    with [None] when it raises. *)
Definition _parse_quiz_result {J : Type} (json_loads : string -> option J)
    (result topic difficulty question_type : string) (num_questions : Z) : Parsed J :=
  let start_idx := find "{" result in
  let end_idx := rfind "}" result + 1 in
  if negb (start_idx =? -1)%Z && negb (end_idx =? -1)%Z then
    match json_loads (slice start_idx end_idx result) with
    | Some quiz_data => FromJson quiz_data
    | None =>
        Built (QuizGenerator._generate_mock_quiz topic num_questions difficulty
                 question_type)
    end
  else
    Built (QuizGenerator._create_quiz_from_text result topic difficulty question_type
             num_questions).

End QuizParsing.

(** ** Vocabulary of the specification *)
Module Spec.

(** The order of the letter grades: F < D < C < B < A. *)
Definition grade_rank (g : string) : nat :=
  if String.eqb g "A" then 4
  else if String.eqb g "B" then 3
  else if String.eqb g "C" then 2
  else if String.eqb g "D" then 1
  else 0.

(** [s] contains [phrase] in some mix of upper and lower case. *)
Definition contains_ci (phrase s : string) : Prop :=
  exists pre w suf, s = pre ++ w ++ suf /\ PyStr.lower w = phrase.

(** Every character of [s] satisfies [p]. *)
Fixpoint forall_chars (p : ascii -> bool) (s : string) : bool :=
  match s with
  | EmptyString => true
  | String c r => p c && forall_chars p r
  end.

(** [s] does not go on with a character of the identifier class. *)
Definition stops (s : string) : Prop :=
  match s with
  | EmptyString => True
  | String c _ => VideoAnalyzer.is_id_char c = false
  end.

(** [s] is the literal [p], the identifier [id] and a rest; [id] is not
    empty, consists of class characters and cannot be extended. *)
Definition literal_then_id (p s id : string) : Prop :=
  exists rest, s = p ++ id ++ rest /\ id <> "" /\
               forall_chars VideoAnalyzer.is_id_char id = true /\ stops rest.

(** [s] is the literal [p] followed by at least one class character. *)
Definition literal_then_id_char (p s : string) : Prop :=
  exists c rest, s = p ++ String c rest /\ VideoAnalyzer.is_id_char c = true.

Definition no_newline (s : string) : Prop :=
  forall_chars (fun c => negb (Ascii.eqb c VideoAnalyzer.newline)) s = true.

(** The accepted shapes, numbered as in [drive_patterns].  [occurs_at k s]
    says that [s] starts with shape [k]; [matches_at k s id] moreover names
    the identifier the pattern captures there: the longest one, and for the
    third shape the one behind the first usable [/d/]. *)
Definition occurs_at (k : nat) (s : string) : Prop :=
  match k with
  | 0 => literal_then_id_char VideoAnalyzer.drive_file_prefix s
  | 1 => literal_then_id_char VideoAnalyzer.drive_open_prefix s
  | 2 => exists mid tail,
           s = VideoAnalyzer.docs_prefix ++ mid ++ tail /\ no_newline mid /\
           literal_then_id_char "/d/" tail
  | _ => False
  end%nat.

Definition matches_at (k : nat) (s id : string) : Prop :=
  match k with
  | 0 => literal_then_id VideoAnalyzer.drive_file_prefix s id
  | 1 => literal_then_id VideoAnalyzer.drive_open_prefix s id
  | 2 => exists mid tail,
           s = VideoAnalyzer.docs_prefix ++ mid ++ tail /\ no_newline mid /\
           literal_then_id "/d/" tail id /\
           (forall m1 m2, mid = m1 ++ m2 -> m2 <> "" ->
              ~ literal_then_id_char "/d/" (m2 ++ tail))
  | _ => False
  end%nat.

(** Shape [k] occurs somewhere in [link]. *)
Definition occurs_in (k : nat) (link : string) : Prop :=
  exists pre s, link = pre ++ s /\ occurs_at k s.

(** [id] is the identifier of the first occurrence in [link] of the first
    shape that occurs in it. *)
Definition first_occurrence (link id : string) : Prop :=
  exists k pre s,
    link = pre ++ s /\ matches_at k s id /\
    (forall j, (j < k)%nat -> ~ occurs_in j link) /\
    (forall pre1 s1, link = pre1 ++ s1 ->
       (String.length pre1 < String.length pre)%nat -> ~ occurs_at k s1).

(** The student has a video submission in the store. *)
Definition has_video (student_id : string) (s : Store.t) : Prop :=
  exists v, In v (Store.get_all_videos s) /\ Store.vs_student_id v = Some student_id.

(** At most one video submission per student. *)
Definition at_most_one_video (s : Store.t) : Prop :=
  forall student_id,
    (List.length (filter (Store.is_video_of student_id) (Store.get_all_videos s))
     <= 1)%nat.

(** The student id a record is filed under, as the aggregator reads it. *)
Definition quiz_sid (q : Store.QuizResult) : string :=
  Store.with_default "" (Store.qr_student_id q).

Definition video_sid (v : Store.VideoSubmission) : string :=
  Store.with_default "" (Store.vs_student_id v).

(** The last element of [l], in iteration order, that satisfies [f]. *)
Definition last_where {A : Type} (f : A -> bool) (l : list A) : option A :=
  find f (rev l).

Definition last_quiz (sid : string) (qs : list Store.QuizResult)
    : option Store.QuizResult :=
  last_where (fun q => String.eqb (quiz_sid q) sid) qs.

Definition last_video (sid : string) (vs : list Store.VideoSubmission)
    : option Store.VideoSubmission :=
  last_where (fun v => String.eqb (video_sid v) sid) vs.




(** A store with the quiz results of [n] students, the [k]-th one filed
    under the student id [s] followed by [k] times [x], with score [score k]. *)
Fixpoint student_name (k : nat) : string :=
  match k with
  | O => "s"
  | S k' => student_name k' ++ "x"
  end.

Definition cohort (score : nat -> Q) (n : nat) : Store.t :=
  {| Store.results :=
       map (fun k => ("r" ++ student_name k,
                      {| Store.qr_student_id := Some (student_name k);
                         Store.qr_quiz_id := Some "quiz";
                         Store.qr_score_percentage := Some (score k);
                         Store.qr_grade := Some "C";
                         Store.qr_feedback := Some "";
                         Store.qr_status := Some "pending" |}))
           (seq 0 n);
     Store.videos := [];
     Store.final_results := [] |}.



End Spec.

(** ** Vocabulary of the further properties *)




(** A stand-in for [bcrypt] on which the statements can be run: the hash is
    a marker followed by the password. *)
Definition toy_bcrypt : Auth.Bcrypt :=
  {| Auth.hashpw := fun pw _ => inl (String "$" pw);
     Auth.checkpw := fun pw h =>
       match h with
       | EmptyString => inr "Invalid salt"
       | String _ r => inl (String.eqb r pw)
       end |}.

(** *** Quizzes made from plain text *)

(** The line starts a question, respectively is an answer option, once it
    is stripped. *)
Definition is_numbered (raw : string) : bool :=
  QuizGenerator.starts_with_any QuizGenerator.number_prefixes (PyStr.strip raw).

Definition is_option (raw : string) : bool :=
  QuizGenerator.starts_with_any QuizGenerator.option_prefixes (PyStr.strip raw).

(** The lines of the text that start a question. *)
Definition numbered_lines (text : string) : list string :=
  filter is_numbered (QuizGenerator.split_on QuizGenerator.newline text).

(** The text of the question that a numbered line starts. *)
Definition question_text (raw : string) : string :=
  PyStr.strip (QuizGenerator.drop2 (PyStr.strip raw)).

(** The numbers 1, 2, ..., [n]. *)
Definition one_to (n : nat) : list Z := map (fun k => Z.of_nat k + 1) (seq 0 n).

(** What every question read from [lines] looks like: the key is "A", and
    each option is a stripped option line. *)
Definition read_from (lines : list string) (q : QuizGenerator.Question) : Prop :=
  QuizGenerator.correct_answer q = "A" /\
  QuizGenerator.explanation q = "Generated explanation" /\
  forall o, In o (QuizGenerator.options q) ->
    exists raw, In raw lines /\ o = PyStr.strip raw /\ is_option raw = true.

(** The state of the loop of [_create_quiz_from_text] after the lines
    [seen]. *)
Definition parser_inv (num_questions : Z) (seen : list string)
    (st : QuizGenerator.Parser) : Prop :=
  QuizGenerator.question_count st = Z.of_nat (List.length (QuizGenerator.parsed st)) /\
  map QuizGenerator.question_number (QuizGenerator.parsed st)
  = one_to (List.length (QuizGenerator.parsed st)) /\
  (forall q, In q (QuizGenerator.parsed st) -> read_from seen q) /\
  match QuizGenerator.current_question st with
  | None => filter is_numbered seen = [] /\ QuizGenerator.parsed st = []
  | Some q =>
      exists before last,
        filter is_numbered seen = (before ++ [last])%list /\
        QuizGenerator.question q = question_text last /\
        QuizGenerator.question_number q = QuizGenerator.question_count st + 1 /\
        read_from seen q /\
        map QuizGenerator.question (QuizGenerator.parsed st)
        = map question_text (firstn (Z.to_nat num_questions) before) /\
        List.length (QuizGenerator.parsed st)
        = Nat.min (List.length before) (Z.to_nat num_questions)
  end.

(** A question of a generated quiz as the grader receives it. *)
Definition as_graded (q : QuizGenerator.Question) : QuizGrader.Question :=
  {| QuizGrader.question := QuizGenerator.question q;
     QuizGrader.options := QuizGenerator.options q;
     QuizGrader.correct_answer := QuizGenerator.correct_answer q;
     QuizGrader.explanation := QuizGenerator.explanation q |}.


(** The character [c] does not occur in [s]. *)
Definition without (c : ascii) (s : string) : Prop :=
  Spec.forall_chars (fun a => negb (Ascii.eqb a c)) s = true.

(** A stand-in for [json.loads] on which the statements can be run: it
    accepts exactly the texts in braces and returns them as they are. *)
Definition toy_json_loads (s : string) : option string :=
  if PyStr.starts_with "{" s then Some s else None.

(** ** Vocabulary of the proofs *)

Arguments VideoAnalyzer.newline : simpl never.

(** The [k]-th pattern of [drive_patterns] as a matcher at a position. *)
Definition pattern_at (k : nat) : string -> option string :=
  nth k VideoAnalyzer.drive_patterns (fun _ => None).

(** The dictionary after the first loop of the aggregator. *)
Definition seeded (qs : list Store.QuizResult) : Dict.dict VideoUtils.CombinedResult :=
  fold_left VideoUtils.process_quiz_result qs [].

(** The dictionary after the second loop. *)
Definition merged (vs : list Store.VideoSubmission)
    (d : Dict.dict VideoUtils.CombinedResult) : Dict.dict VideoUtils.CombinedResult :=
  fold_left VideoUtils.process_video_result vs d.

(** The entry of a student after the videos [vs] have been merged. *)
Definition with_last_video (sid : string) (vs : list Store.VideoSubmission)
    (e : VideoUtils.CombinedResult) : VideoUtils.CombinedResult :=
  match Spec.last_video sid vs with
  | Some v => VideoUtils.merge_video v e
  | None => e
  end.

(** The combined result of one student. *)
Definition entry_of (qs : list Store.QuizResult) (vs : list Store.VideoSubmission)
    (sid : string) (q : Store.QuizResult) : VideoUtils.CombinedResult :=
  VideoUtils.finalize (with_last_video sid vs (VideoUtils.seed_entry sid q)).


(** * Properties *)

(** ** Binary64 arithmetic on sample values

    The values Python prints for the same expressions, as exact
    fractions. *)

Example float_add_tenths :
  fadd (lit 1 10) (lit 2 10) = (1351079888211149 # 4503599627370496)%Q.
Proof. vm_compute. reflexivity. Qed.

Example float_third : int_truediv 1 3 = (6004799503160661 # 18014398509481984)%Q.
Proof. vm_compute. reflexivity. Qed.

Example float_product_below_29 :
  fmul (of_Z 100) (fdiv 29 (of_Z 100)) = (8162774324609023 # 281474976710656)%Q /\
  py_int (fmul (of_Z 100) (fdiv 29 (of_Z 100))) = 28.
Proof. split; vm_compute; reflexivity. Qed.

Example round2_samples :
  round2 (lit 2675 1000) = lit 267 100 /\
  round2 (lit 125 1000) = lit 12 100 /\
  round2 (lit 375 1000) = lit 38 100 /\
  round2 (fmul (int_truediv 1 3) (of_Z 100)) = lit 3333 100.
Proof. repeat split; vm_compute; reflexivity. Qed.

Example py_int_truncates : py_int (lit (-5) 10) = 0 /\ py_int (lit 29 10) = 2.
Proof. split; vm_compute; reflexivity. Qed.

(** ** Comparisons *)

Lemma geb_true (x y : Q) : geb x y = true <-> (y <= x)%Q.
Proof. unfold geb. apply Qle_bool_iff. Qed.

Lemma geb_false (x y : Q) : geb x y = false <-> (x < y)%Q.
Proof.
  unfold geb. split; intros H.
  - apply Qnot_le_lt. intros Hle. apply Qle_bool_iff in Hle. congruence.
  - destruct (Qle_bool y x) eqn:E; [|reflexivity].
    apply Qle_bool_iff in E. exfalso. apply (Qlt_not_le _ _ H E).
Qed.

Lemma gtb_true (x y : Q) : gtb x y = true <-> (y < x)%Q.
Proof.
  unfold gtb. rewrite negb_true_iff. apply (geb_false y x).
Qed.


(** ** Rounding *)

Lemma pow2_pos (e : Z) : (0 < pow2 e)%Q.
Proof.
  unfold pow2. destruct (Z.leb_spec 0 e) as [He|He].
  - change 0%Q with (inject_Z 0). rewrite <- Zlt_Qlt. now apply Z.pow_pos_nonneg.
  - apply Qinv_lt_0_compat. change 0%Q with (inject_Z 0). rewrite <- Zlt_Qlt.
    apply Z.pow_pos_nonneg; lia.
Qed.

Lemma rne_bounds (x : Q) : Qfloor x <= rne x <= Qfloor x + 1.
Proof.
  unfold rne. destruct (x - inject_Z (Qfloor x) ?= 1 # 2)%Q;
    [destruct (Z.even (Qfloor x))|..]; lia.
Qed.

(** A number below an integer does not round above it. *)
Lemma rne_le_Z (x : Q) (n : Z) : (x <= inject_Z n)%Q -> rne x <= n.
Proof.
  intros Hx.
  assert (Hf : Qfloor x <= n).
  { rewrite <- (Qfloor_Z n). now apply Qfloor_resp_le. }
  destruct (Z.eq_dec (Qfloor x) n) as [Heq|Hne].
  - assert (Hlt : (x - inject_Z (Qfloor x) ?= 1 # 2)%Q = Lt).
    { apply (proj1 (Qlt_alt _ _)). rewrite Heq. lra. }
    unfold rne. rewrite Hlt. lia.
  - pose proof (rne_bounds x). lia.
Qed.

Lemma rnd_at_le_0 (e : Z) (x : Q) : (x <= 0)%Q -> (rnd_at e x <= 0)%Q.
Proof.
  intros Hx. unfold rnd_at. rewrite Qred_correct.
  pose proof (pow2_pos e) as Hp.
  assert (Hr : rne (x / pow2 e) <= 0).
  { apply rne_le_Z. change (inject_Z 0) with 0%Q.
    apply Qle_shift_div_r; [exact Hp | lra]. }
  rewrite Zle_Qle in Hr. change (inject_Z 0) with 0%Q in Hr. nra.
Qed.

(** [ilog2] of a positive number below 2^53 is at most 52. *)
Lemma ilog2_le_52 (x : Q) :
  (0 < x)%Q -> (x < inject_Z (2 ^ 53))%Q -> ilog2 x <= 52.
Proof.
  intros Hpos Hlt. unfold ilog2.
  destruct x as [n d]. cbn [Qnum Qden].
  assert (Hn : 0 < n) by (unfold Qlt in Hpos; cbn in Hpos; lia).
  assert (Hnd : n < 2 ^ 53 * Z.pos d) by (unfold Qlt in Hlt; cbn in Hlt; lia).
  pose proof (Z.log2_spec n Hn) as [Hn1 Hn2].
  pose proof (Z.log2_spec (Z.pos d) eq_refl) as [Hd1 Hd2].
  pose proof (Z.log2_nonneg n) as Hln.
  pose proof (Z.log2_nonneg (Z.pos d)) as Hld.
  assert (Hk : Z.log2 n - Z.log2 (Z.pos d) <= 53).
  { destruct (Z.le_gt_cases (Z.log2 n) (Z.log2 (Z.pos d) + 53)) as [H|H]; [lia|].
    exfalso.
    assert (H1 : 2 ^ (Z.log2 (Z.pos d) + 54) <= 2 ^ Z.log2 n)
      by (apply Z.pow_le_mono_r; lia).
    replace (Z.log2 (Z.pos d) + 54) with (53 + Z.succ (Z.log2 (Z.pos d))) in H1 by lia.
    rewrite Z.pow_add_r in H1 by lia. nia. }
  destruct (Qle_bool (pow2 (Z.log2 n - Z.log2 (Z.pos d))) (n # d)) eqn:E; [|lia].
  apply Qle_bool_iff in E.
  destruct (Z.le_gt_cases (Z.log2 n - Z.log2 (Z.pos d)) 52) as [H|H]; [exact H|].
  exfalso. assert (Hk53 : Z.log2 n - Z.log2 (Z.pos d) = 53) by lia.
  rewrite Hk53 in E. change (pow2 53) with (inject_Z (2 ^ 53)) in E. lra.
Qed.

Lemma Qabs_pos_eq (x : Q) : (0 < x)%Q -> Qabs x = x.
Proof.
  destruct x as [n d]. unfold Qlt, Qabs. cbn. intros H.
  f_equal. apply Z.abs_eq. lia.
Qed.

(** Rounding to binary64 does not cross an integer below 2^53. *)
Lemma rnd_le_int (x : Q) (n : Z) :
  0 < n < 2 ^ 53 -> (x <= inject_Z n)%Q -> (rnd x <= inject_Z n)%Q.
Proof.
  intros [Hn0 Hn] Hx.
  assert (Hn0' : (0 < inject_Z n)%Q) by (change 0%Q with (inject_Z 0); now rewrite <- Zlt_Qlt).
  unfold rnd. destruct (Qeq_bool x 0) eqn:E0; [lra|].
  destruct (Qlt_le_dec 0 x) as [Hpos|Hneg].
  2:{ pose proof (rnd_at_le_0 (cexp x) x Hneg). lra. }
  assert (He : cexp x <= 0).
  { unfold cexp. rewrite Qabs_pos_eq by exact Hpos.
    assert (ilog2 x <= 52); [|lia].
    apply ilog2_le_52; [exact Hpos|].
    apply Qle_lt_trans with (inject_Z n); [exact Hx|]. now rewrite <- Zlt_Qlt. }
  unfold rnd_at. rewrite Qred_correct.
  pose proof (pow2_pos (cexp x)) as Hp.
  assert (Hint : (inject_Z n / pow2 (cexp x) == inject_Z (n * 2 ^ (- cexp x)))%Q).
  { unfold pow2. destruct (Z.leb_spec 0 (cexp x)) as [H0|H0].
    - assert (He0 : cexp x = 0) by lia. rewrite He0.
      change (inject_Z (2 ^ 0)) with 1%Q. change (2 ^ (- 0)) with 1.
      rewrite Z.mul_1_r. field.
    - rewrite inject_Z_mult. field.
      assert (0 < 2 ^ (- cexp x)) by (apply Z.pow_pos_nonneg; lia).
      intros Habs. rewrite Zlt_Qlt in H. change (inject_Z 0) with 0%Q in H. lra. }
  assert (Hr : rne (x / pow2 (cexp x)) <= n * 2 ^ (- cexp x)).
  { apply rne_le_Z. rewrite <- Hint.
    apply Qmult_le_compat_r; [exact Hx|]. apply Qlt_le_weak. now apply Qinv_lt_0_compat. }
  rewrite Zle_Qle in Hr. rewrite <- Hint in Hr.
  apply Qle_trans with (inject_Z n / pow2 (cexp x) * pow2 (cexp x))%Q.
  - apply Qmult_le_compat_r; [exact Hr | lra].
  - assert (Hid : (inject_Z n / pow2 (cexp x) * pow2 (cexp x) == inject_Z n)%Q).
    { field. intros Habs. rewrite Habs in Hp. now apply Qlt_irrefl in Hp. }
    rewrite Hid. apply Qle_refl.
Qed.

(** [round(x, 2)] does not cross an integer below 2^53 / 100 either. *)
Lemma round2_le_int (x : Q) (n : Z) :
  0 < n < 2 ^ 46 -> (x <= inject_Z n)%Q -> (round2 x <= inject_Z n)%Q.
Proof.
  intros Hn Hx. unfold round2. apply rnd_le_int; [lia|].
  assert (Hr : rne (x * 100) <= n * 100).
  { apply rne_le_Z. rewrite inject_Z_mult. change (inject_Z 100) with 100%Q. lra. }
  rewrite Zle_Qle in Hr. rewrite inject_Z_mult in Hr.
  change (inject_Z 100) with 100%Q in Hr.
  apply Qle_shift_div_r; [reflexivity | exact Hr].
Qed.

(** ** Dictionaries *)

Section DictFacts.
Context {V : Type}.
Implicit Types (d : Dict.dict V) (k : string) (v : V).

Lemma get_set_same k v d : Dict.get k (Dict.set k v d) = Some v.
Proof.
  induction d as [|[k' v'] d IH]; cbn.
  - now rewrite String.eqb_refl.
  - destruct (String.eqb k k') eqn:E; cbn; rewrite ?String.eqb_refl, ?E; auto.
Qed.

Lemma get_set_other k k' v d :
  k' <> k -> Dict.get k' (Dict.set k v d) = Dict.get k' d.
Proof.
  intros Hne. induction d as [|[k0 v0] d IH]; cbn.
  - now rewrite (proj2 (String.eqb_neq k' k) Hne).
  - destruct (String.eqb k k0) eqn:E; cbn.
    + apply String.eqb_eq in E. subst k0.
      now rewrite (proj2 (String.eqb_neq k' k) Hne).
    + destruct (String.eqb k' k0); auto.
Qed.

Lemma get_some_in_keys k d : Dict.get k d <> None <-> In k (Dict.keys d).
Proof.
  induction d as [|[k' v'] d IH]; cbn.
  - split; [congruence | intros []].
  - destruct (String.eqb_spec k k') as [->|Hne].
    + split; [auto | discriminate].
    + rewrite IH. split; [auto | intros [H|H]; [congruence | exact H]].
Qed.

Lemma mem_iff k d : Dict.mem k d = true <-> In k (Dict.keys d).
Proof.
  unfold Dict.mem. rewrite <- get_some_in_keys.
  destruct (Dict.get k d); split; congruence.
Qed.

(** Assigning to a present key keeps the keys; assigning to a new key
    appends it. *)
Lemma keys_set k v d :
  Dict.keys (Dict.set k v d) =
  if Dict.mem k d then Dict.keys d else (Dict.keys d ++ [k])%list.
Proof.
  unfold Dict.mem. induction d as [|[k' v'] d IH]; cbn; [reflexivity|].
  destruct (String.eqb_spec k k') as [->|Hne]; cbn; [reflexivity|].
  unfold Dict.keys in IH. rewrite IH. destruct (Dict.get k d); reflexivity.
Qed.

Lemma in_keys_set k k' v d :
  In k' (Dict.keys (Dict.set k v d)) <-> k' = k \/ In k' (Dict.keys d).
Proof.
  rewrite keys_set. destruct (Dict.mem k d) eqn:E.
  - apply mem_iff in E. split; [auto | intros [->|H]; auto].
  - rewrite in_app_iff. cbn. split; intros H; intuition auto.
Qed.

Lemma NoDup_keys_set k v d :
  NoDup (Dict.keys d) -> NoDup (Dict.keys (Dict.set k v d)).
Proof.
  intros Hnd. rewrite keys_set. destruct (Dict.mem k d) eqn:E; [exact Hnd|].
  assert (Hk : ~ In k (Dict.keys d)).
  { intros H. apply mem_iff in H. congruence. }
  clear E. induction (Dict.keys d) as [|a l IH]; cbn.
  - constructor; [intros [] | constructor].
  - inversion Hnd as [|? ? Ha Hl]; subst. constructor.
    + rewrite in_app_iff. cbn. intros [H|[H|[]]]; [auto | subst; apply Hk; now left].
    + apply IH; [exact Hl | intros H; apply Hk; now right].
Qed.

Lemma in_values_get v d :
  NoDup (Dict.keys d) ->
  (In v (Dict.values d) <-> exists k, Dict.get k d = Some v).
Proof.
  induction d as [|[k' v'] d IH]; cbn; intros Hnd.
  - split; [intros [] | intros [k H]; discriminate].
  - inversion Hnd as [|? ? Hk Hd]; subst. split.
    + intros [<-|H].
      * exists k'. now rewrite String.eqb_refl.
      * apply (IH Hd) in H as [k H]. exists k.
        destruct (String.eqb k k') eqn:E; [|exact H].
        apply String.eqb_eq in E. subst k.
        exfalso. apply Hk. apply get_some_in_keys. congruence.
    + intros [k H]. destruct (String.eqb k k') eqn:E.
      * left. congruence.
      * right. apply (IH Hd). eauto.
Qed.

(** The values after an assignment: the old values with at most one of
    them dropped, and the new value. *)
Lemma filter_values_set (f : V -> bool) k v d :
  (List.length (filter f (Dict.values (Dict.set k v d)))
   <= List.length (filter f (Dict.values d)) + (if f v then 1 else 0))%nat.
Proof.
  induction d as [|[k' v'] d IH]; cbn.
  - destruct (f v); cbn; lia.
  - destruct (String.eqb k k'); cbn.
    + destruct (f v), (f v'); cbn; lia.
    + destruct (f v'); cbn; unfold Dict.values in IH; lia.
Qed.

End DictFacts.

(** ** Letter grades *)

Lemma letter_grade_cases (x : Q) :
  ((90 <= x)%Q /\ QuizGrader._calculate_letter_grade x = "A") \/
  ((80 <= x < 90)%Q /\ QuizGrader._calculate_letter_grade x = "B") \/
  ((70 <= x < 80)%Q /\ QuizGrader._calculate_letter_grade x = "C") \/
  ((60 <= x < 70)%Q /\ QuizGrader._calculate_letter_grade x = "D") \/
  ((x < 60)%Q /\ QuizGrader._calculate_letter_grade x = "F").
Proof.
  unfold QuizGrader._calculate_letter_grade.
  destruct (geb x 90) eqn:E90; [apply geb_true in E90; auto|].
  apply geb_false in E90.
  destruct (geb x 80) eqn:E80; [apply geb_true in E80; auto 6|].
  apply geb_false in E80.
  destruct (geb x 70) eqn:E70; [apply geb_true in E70; auto 8|].
  apply geb_false in E70.
  destruct (geb x 60) eqn:E60; [apply geb_true in E60; auto 10|].
  apply geb_false in E60. auto 10.
Qed.

Lemma letter_grade_monotone (x y : Q) :
  (y <= x)%Q ->
  (Spec.grade_rank (QuizGrader._calculate_letter_grade y)
   <= Spec.grade_rank (QuizGrader._calculate_letter_grade x))%nat.
Proof.
  intros Hle.
  destruct (letter_grade_cases x) as [[Hx ->]|[[Hx ->]|[[Hx ->]|[[Hx ->]|[Hx ->]]]]];
  destruct (letter_grade_cases y) as [[Hy ->]|[[Hy ->]|[[Hy ->]|[[Hy ->]|[Hy ->]]]]];
  cbn; try lia; exfalso; lra.
Qed.

(** C3: the letter grade is A from 90, B from 80, C from 70, D from 60 and
    F below 60, each band closed at its lower end; it does not go up when
    the percentage goes down; 90 is an A, 89.9 a B, 60 a D and 59.9 an F;
    and the grade functions of the quiz grader, of the video analyser and
    of the final results compute the same mapping. *)
Theorem letter_grade_bands (x : Q) :
  ((90 <= x)%Q -> QuizGrader._calculate_letter_grade x = "A") /\
  ((80 <= x < 90)%Q -> QuizGrader._calculate_letter_grade x = "B") /\
  ((70 <= x < 80)%Q -> QuizGrader._calculate_letter_grade x = "C") /\
  ((60 <= x < 70)%Q -> QuizGrader._calculate_letter_grade x = "D") /\
  ((x < 60)%Q -> QuizGrader._calculate_letter_grade x = "F") /\
  (forall y : Q, (y <= x)%Q ->
     (Spec.grade_rank (QuizGrader._calculate_letter_grade y)
      <= Spec.grade_rank (QuizGrader._calculate_letter_grade x))%nat) /\
  QuizGrader._calculate_letter_grade 90 = "A" /\
  QuizGrader._calculate_letter_grade (lit 899 10) = "B" /\
  QuizGrader._calculate_letter_grade 60 = "D" /\
  QuizGrader._calculate_letter_grade (lit 599 10) = "F" /\
  VideoAnalyzer._calculate_letter_grade x = QuizGrader._calculate_letter_grade x /\
  VideoUtils._calculate_final_grade x = QuizGrader._calculate_letter_grade x.
Proof.
  repeat split; try (intros H;
    destruct (letter_grade_cases x) as [[Hx ->]|[[Hx ->]|[[Hx ->]|[[Hx ->]|[Hx ->]]]]];
    try reflexivity; exfalso; lra).
  intros y Hy. apply letter_grade_monotone; exact Hy.
Qed.

Lemma letter_grade_bands_witness :
  QuizGrader._calculate_letter_grade 85 = "B" /\
  (Spec.grade_rank (QuizGrader._calculate_letter_grade 72)
   <= Spec.grade_rank (QuizGrader._calculate_letter_grade 85))%nat.
Proof.
  destruct (letter_grade_bands 85) as (_ & HB & _ & _ & _ & Hmono & _).
  split.
  - apply HB. split; [discriminate | reflexivity].
  - apply Hmono. discriminate.
Defined.

(** ** The fallback grading *)

Lemma grading_loop_spec (sa ca : list string) (qs : list QuizGrader.Question) :
  forall (i c : nat) (rs : list QuizGrader.QuestionResult),
    QuizGrader.grading_loop sa ca qs i (c, rs) =
    let graded := map (QuizGrader.grade_question sa ca) (seq i (List.length qs)) in
    ((c + List.length (filter QuizGrader.is_correct graded))%nat, (rs ++ graded)%list).
Proof.
  induction qs as [|q qs IH]; intros i c rs; cbn [QuizGrader.grading_loop].
  - cbn. now rewrite Nat.add_0_r, app_nil_r.
  - rewrite IH. cbn [fst snd List.length seq map filter]. cbv zeta.
    destruct (QuizGrader.is_correct (QuizGrader.grade_question sa ca i));
      cbn [List.length]; rewrite <- app_assoc; cbn [app]; f_equal; lia.
Qed.






(** ** Strings *)

Lemma starts_with_iff (p s : string) :
  PyStr.starts_with p s = true <-> exists suf, s = p ++ suf.
Proof.
  revert s. induction p as [|a p IH]; intros s; cbn.
  - split; [intros _; exists s; reflexivity | reflexivity].
  - destruct s as [|b s].
    + split; [discriminate | intros [suf H]; discriminate].
    + rewrite andb_true_iff, Ascii.eqb_eq, IH. split.
      * intros [-> [suf ->]]. exists suf. reflexivity.
      * intros [suf H]. inversion H. split; [reflexivity | exists suf; reflexivity].
Qed.

Lemma contains_iff (needle s : string) :
  PyStr.contains needle s = true <-> exists pre suf, s = pre ++ needle ++ suf.
Proof.
  induction s as [|c s IH].
  - cbn. rewrite orb_false_r, starts_with_iff. split.
    + intros [suf H]. exists "", suf. exact H.
    + intros (pre & suf & H). destruct pre; [exists suf; exact H|discriminate].
  - cbn [PyStr.contains]. rewrite orb_true_iff, starts_with_iff, IH. split.
    + intros [[suf H]|(pre & suf & H)].
      * exists "", suf. exact H.
      * exists (String c pre), suf. cbn. now rewrite H.
    + intros (pre & suf & H). destruct pre as [|a pre].
      * left. exists suf. exact H.
      * right. exists pre, suf. now inversion H.
Qed.

Lemma lower_app (a b : string) :
  PyStr.lower (a ++ b) = PyStr.lower a ++ PyStr.lower b.
Proof. induction a as [|c a IH]; cbn; [reflexivity | now rewrite IH]. Qed.

Lemma lower_split (s a b : string) :
  PyStr.lower s = a ++ b ->
  exists s1 s2, s = s1 ++ s2 /\ PyStr.lower s1 = a /\ PyStr.lower s2 = b.
Proof.
  revert s. induction a as [|c a IH]; intros s H.
  - exists "", s. auto.
  - destruct s as [|d s]; [discriminate|]. cbn in H. inversion H as [[Hc Hs]].
    destruct (IH s Hs) as (s1 & s2 & -> & H1 & H2).
    exists (String d s1), s2. cbn. rewrite H1. auto.
Qed.

Lemma contains_lower_iff (phrase s : string) :
  PyStr.contains phrase (PyStr.lower s) = true <-> Spec.contains_ci phrase s.
Proof.
  rewrite contains_iff. unfold Spec.contains_ci. split.
  - intros (pre & suf & H).
    destruct (lower_split _ _ _ H) as (s1 & s2 & -> & H1 & H2).
    destruct (lower_split _ _ _ H2) as (w & s3 & -> & Hw & H3).
    exists s1, w, s3. auto.
  - intros (pre & w & suf & -> & Hw).
    exists (PyStr.lower pre), (PyStr.lower suf).
    now rewrite !lower_app, Hw.
Qed.

(** ** The mock video analysis *)

Lemma base_score_cases (transcript : string) :
  let keyword := Spec.contains_ci "artificial intelligence" transcript \/
                 Spec.contains_ci "machine learning" transcript in
  (keyword /\ VideoAnalyzer.base_score transcript = 78) \/
  (~ keyword /\ (80 < PyStr.word_count transcript)%nat /\
   VideoAnalyzer.base_score transcript = 72) \/
  (~ keyword /\ (PyStr.word_count transcript <= 80)%nat /\
   VideoAnalyzer.base_score transcript = 65).
Proof.
  cbv zeta. unfold VideoAnalyzer.base_score.
  rewrite <- !contains_lower_iff.
  destruct (PyStr.contains "artificial intelligence" (PyStr.lower transcript)) eqn:E1;
    [left; auto|].
  destruct (PyStr.contains "machine learning" (PyStr.lower transcript)) eqn:E2;
    [left; auto|].
  cbn [orb].
  assert (Hno : ~ (false = true \/ false = true)) by (intros [H|H]; discriminate).
  destruct (Nat.ltb_spec 80 (PyStr.word_count transcript)); [right; left | right; right];
    auto.
Qed.



(** ** Link validation *)

Lemma str_app_assoc (a b c : string) : (a ++ b) ++ c = a ++ b ++ c.
Proof. induction a as [|x a IH]; cbn; [reflexivity | now rewrite IH]. Qed.

Lemma str_app_nil_r (a : string) : a ++ "" = a.
Proof. induction a as [|x a IH]; cbn; [reflexivity | now rewrite IH]. Qed.

Lemma str_app_inv_head (a b c : string) : a ++ b = a ++ c -> b = c.
Proof. induction a as [|x a IH]; cbn; intros H; [exact H | inversion H; auto]. Qed.

Lemma drop_prefix_some (p s r : string) :
  VideoAnalyzer.drop_prefix p s = Some r <-> s = p ++ r.
Proof.
  revert s. induction p as [|a p IH]; intros s; cbn.
  - split; [intros [= ->]; reflexivity | intros ->; reflexivity].
  - destruct s as [|b s]; [split; discriminate|].
    destruct (Ascii.eqb_spec a b) as [->|Hne].
    + rewrite IH. split; [intros ->; reflexivity | intros [= ->]; reflexivity].
    + split; [discriminate | intros [= Hab _]; congruence].
Qed.

Lemma drop_prefix_none (p s : string) :
  VideoAnalyzer.drop_prefix p s = None <-> forall r, s <> p ++ r.
Proof.
  split.
  - intros H r Hr. apply drop_prefix_some in Hr. congruence.
  - intros H. destruct (VideoAnalyzer.drop_prefix p s) as [r|] eqn:E; [|reflexivity].
    apply drop_prefix_some in E. exfalso. apply (H r E).
Qed.

Lemma take_id_split (s : string) :
  exists rest, s = VideoAnalyzer.take_id s ++ rest /\
               Spec.forall_chars VideoAnalyzer.is_id_char (VideoAnalyzer.take_id s) = true /\
               Spec.stops rest.
Proof.
  induction s as [|c s (rest & Hs & Hall & Hstop)]; cbn.
  - exists "". cbn. auto.
  - destruct (VideoAnalyzer.is_id_char c) eqn:Ec.
    + exists rest. cbn. rewrite Ec, Hall, <- Hs. auto.
    + exists (String c s). cbn. auto.
Qed.

Lemma take_id_unique (id rest : string) :
  Spec.forall_chars VideoAnalyzer.is_id_char id = true -> Spec.stops rest ->
  VideoAnalyzer.take_id (id ++ rest) = id.
Proof.
  induction id as [|c id IH]; cbn; intros Hall Hstop.
  - destruct rest as [|d rest]; cbn in *; [reflexivity | now rewrite Hstop].
  - apply andb_true_iff in Hall as [Hc Hall]. rewrite Hc, IH; auto.
Qed.

Lemma match_id_some (s id : string) :
  VideoAnalyzer.match_id s = Some id <->
  exists rest, s = id ++ rest /\ id <> "" /\
               Spec.forall_chars VideoAnalyzer.is_id_char id = true /\ Spec.stops rest.
Proof.
  unfold VideoAnalyzer.match_id. split.
  - destruct (take_id_split s) as (rest & Hs & Hall & Hstop).
    destruct (VideoAnalyzer.take_id s) as [|c t] eqn:E; [discriminate|].
    intros [= <-]. exists rest. repeat split; auto. discriminate.
  - intros (rest & -> & Hne & Hall & Hstop).
    rewrite take_id_unique by assumption.
    destruct id; [contradiction | reflexivity].
Qed.

Lemma match_id_none (s : string) :
  VideoAnalyzer.match_id s = None <->
  ~ exists c rest, s = String c rest /\ VideoAnalyzer.is_id_char c = true.
Proof.
  unfold VideoAnalyzer.match_id. destruct s as [|c s]; cbn.
  - split; [intros _ (c & rest & H & _); discriminate | reflexivity].
  - destruct (VideoAnalyzer.is_id_char c) eqn:Ec.
    + split; [discriminate | intros H; exfalso; apply H; eauto].
    + split; [|reflexivity]. intros _ (d & rest & [= -> _] & Hd). congruence.
Qed.

Lemma match_literal_id_some (p s id : string) :
  VideoAnalyzer.match_literal_id p s = Some id <-> Spec.literal_then_id p s id.
Proof.
  unfold VideoAnalyzer.match_literal_id, Spec.literal_then_id.
  destruct (VideoAnalyzer.drop_prefix p s) as [r|] eqn:E.
  - apply drop_prefix_some in E. subst s. rewrite match_id_some. split.
    + intros (rest & -> & H). exists rest. auto.
    + intros (rest & Hs & H). apply str_app_inv_head in Hs. exists rest. auto.
  - split; [discriminate|]. intros (rest & Hs & _). exfalso.
    apply (proj1 (drop_prefix_none p s) E (id ++ rest) Hs).
Qed.

Lemma match_literal_id_none (p s : string) :
  VideoAnalyzer.match_literal_id p s = None <-> ~ Spec.literal_then_id_char p s.
Proof.
  unfold VideoAnalyzer.match_literal_id, Spec.literal_then_id_char.
  destruct (VideoAnalyzer.drop_prefix p s) as [r|] eqn:E.
  - apply drop_prefix_some in E. subst s. rewrite match_id_none. split.
    + intros H (c & rest & Hs & Hc). apply str_app_inv_head in Hs.
      apply H. eauto.
    + intros H (c & rest & -> & Hc). apply H. eauto.
  - split; [|reflexivity]. intros _ (c & rest & Hs & _).
    apply (proj1 (drop_prefix_none p s) E _ Hs).
Qed.

Lemma search_some (m : string -> option string) (s g : string) :
  VideoAnalyzer.search m s = Some g <->
  exists pre s', s = pre ++ s' /\ m s' = Some g /\
    forall pre1 s1, s = pre1 ++ s1 ->
      (String.length pre1 < String.length pre)%nat -> m s1 = None.
Proof.
  induction s as [|c r IH]; cbn [VideoAnalyzer.search].
  - destruct (m "") as [g0|] eqn:E.
    + split.
      * intros [= ->]. exists "", "". cbn. repeat split; auto. intros; lia.
      * intros (pre & s' & Hs & Hm & _).
        destruct pre; [|discriminate]. cbn in Hs. subst s'. congruence.
    + split; [discriminate|]. intros (pre & s' & Hs & Hm & _).
      destruct pre; [|discriminate]. cbn in Hs. subst s'. congruence.
  - destruct (m (String c r)) as [g0|] eqn:E.
    + split.
      * intros [= ->]. exists "", (String c r). cbn. repeat split; auto. intros; lia.
      * intros (pre & s' & Hs & Hm & Hmin). destruct pre as [|a pre].
        -- cbn in Hs. subst s'. congruence.
        -- specialize (Hmin "" (String c r) eq_refl). cbn in Hmin.
           rewrite Hmin in E by lia. discriminate.
    + rewrite IH. split.
      * intros (pre & s' & -> & Hm & Hmin). exists (String c pre), s'.
        repeat split; auto. intros pre1 s1 Hs Hlen. destruct pre1 as [|a pre1].
        -- cbn in Hs. subst s1. exact E.
        -- cbn in Hs, Hlen. inversion Hs. apply (Hmin pre1 s1); [assumption | lia].
      * intros (pre & s' & Hs & Hm & Hmin). destruct pre as [|a pre].
        -- cbn in Hs. subst s'. congruence.
        -- cbn in Hs. inversion Hs as [[Ha Hr]]. exists pre, s'.
           repeat split; auto. intros pre1 s1 Hs1 Hlen.
           apply (Hmin (String c pre1) s1); [cbn; congruence | cbn; lia].
Qed.

Lemma search_none (m : string -> option string) (s : string) :
  VideoAnalyzer.search m s = None <-> forall pre s', s = pre ++ s' -> m s' = None.
Proof.
  induction s as [|c r IH]; cbn [VideoAnalyzer.search].
  - destruct (m "") as [g0|] eqn:E.
    + split; [discriminate|]. intros H. rewrite (H "" "" eq_refl) in E. discriminate.
    + split; [|reflexivity]. intros _ pre s' Hs.
      destruct pre; [|discriminate]. cbn in Hs. now subst s'.
  - destruct (m (String c r)) as [g0|] eqn:E.
    + split; [discriminate|]. intros H.
      rewrite (H "" (String c r) eq_refl) in E. discriminate.
    + rewrite IH. split.
      * intros H pre s' Hs. destruct pre as [|a pre].
        -- cbn in Hs. now subst s'.
        -- inversion Hs. eapply H; eauto.
      * intros H pre s' ->. apply (H (String c pre) s' eq_refl).
Qed.

Lemma lazy_any_some (m : string -> option string) (s g : string) :
  VideoAnalyzer.lazy_any m s = Some g <->
  exists mid tail, s = mid ++ tail /\ Spec.no_newline mid /\ m tail = Some g /\
    forall m1 m2, mid = m1 ++ m2 -> m2 <> "" -> m (m2 ++ tail) = None.
Proof.
  unfold Spec.no_newline.
  induction s as [|c r IH]; cbn [VideoAnalyzer.lazy_any].
  - destruct (m "") as [g0|] eqn:E.
    + split.
      * intros [= ->]. exists "", "". repeat split; auto.
        intros m1 m2 H Hne. destruct m1; destruct m2; try discriminate. contradiction.
      * intros (mid & tail & Hs & _ & Hm & _).
        destruct mid; [|discriminate]. cbn in Hs. subst tail. congruence.
    + split; [discriminate|]. intros (mid & tail & Hs & _ & Hm & _).
      destruct mid; [|discriminate]. cbn in Hs. subst tail. congruence.
  - destruct (m (String c r)) as [g0|] eqn:E.
    + split.
      * intros [= ->]. exists "", (String c r). repeat split; auto.
        intros m1 m2 H Hne. destruct m1; destruct m2; try discriminate. contradiction.
      * intros (mid & tail & Hs & _ & Hm & Hmin). destruct mid as [|a mid].
        -- cbn in Hs. subst tail. congruence.
        -- specialize (Hmin "" (String a mid) eq_refl). rewrite <- Hs in Hmin.
           rewrite Hmin in E by discriminate. discriminate.
    + destruct (Ascii.eqb c VideoAnalyzer.newline) eqn:Ec.
      * split; [discriminate|]. intros (mid & tail & Hs & Hnl & Hm & _).
        destruct mid as [|a mid].
        -- cbn in Hs. subst tail. congruence.
        -- cbn in Hs, Hnl. inversion Hs as [[Hca Hr]].
           apply andb_true_iff in Hnl as [Hn _]. apply negb_true_iff in Hn.
           congruence.
      * rewrite IH. split.
        -- intros (mid & tail & Hr & Hnl & Hm & Hmin). exists (String c mid), tail.
           cbn. rewrite Ec, Hnl, Hr. repeat split; auto.
           intros m1 m2 H Hne. destruct m1 as [|a m1].
           ++ cbn in H. subst m2. cbn. rewrite <- Hr. exact E.
           ++ cbn in H. inversion H. apply Hmin with m1; assumption.
        -- intros (mid & tail & Hs & Hnl & Hm & Hmin). destruct mid as [|a mid].
           ++ cbn in Hs. subst tail. congruence.
           ++ cbn in Hs, Hnl. inversion Hs as [[Ha Hr]].
              apply andb_true_iff in Hnl as [_ Hnl].
              exists mid, tail. repeat split; auto.
              intros m1 m2 H Hne. apply (Hmin (String a m1) m2); [cbn; congruence | exact Hne].
Qed.

Lemma lazy_any_none (m : string -> option string) (s : string) :
  VideoAnalyzer.lazy_any m s = None <->
  forall mid tail, s = mid ++ tail -> Spec.no_newline mid -> m tail = None.
Proof.
  unfold Spec.no_newline.
  induction s as [|c r IH]; cbn [VideoAnalyzer.lazy_any].
  - destruct (m "") as [g0|] eqn:E.
    + split; [discriminate|]. intros H.
      rewrite (H "" "" eq_refl eq_refl) in E. discriminate.
    + split; [|reflexivity]. intros _ mid tail Hs _.
      destruct mid; [|discriminate]. cbn in Hs. now subst tail.
  - destruct (m (String c r)) as [g0|] eqn:E.
    + split; [discriminate|]. intros H.
      rewrite (H "" (String c r) eq_refl eq_refl) in E. discriminate.
    + destruct (Ascii.eqb c VideoAnalyzer.newline) eqn:Ec.
      * split; [|reflexivity]. intros _ mid tail Hs Hnl. destruct mid as [|a mid].
        -- cbn in Hs. now subst tail.
        -- cbn in Hs, Hnl. inversion Hs as [[Hca Hr]].
           apply andb_true_iff in Hnl as [Hn _]. apply negb_true_iff in Hn.
           congruence.
      * rewrite IH. split.
        -- intros H mid tail Hs Hnl. destruct mid as [|a mid].
           ++ cbn in Hs. now subst tail.
           ++ cbn in Hs, Hnl. inversion Hs. apply andb_true_iff in Hnl as [_ Hnl].
              eapply H; eauto.
        -- intros H mid tail -> Hnl. apply (H (String c mid) tail eq_refl).
           cbn. now rewrite Ec, Hnl.
Qed.

Lemma pattern_at_some (k : nat) (s id : string) :
  pattern_at k s = Some id <-> Spec.matches_at k s id.
Proof.
  destruct k as [|[|[|k]]]; unfold pattern_at, VideoAnalyzer.drive_patterns;
    cbn [nth Spec.matches_at].
  - apply match_literal_id_some.
  - apply match_literal_id_some.
  - unfold VideoAnalyzer.pattern_docs.
    destruct (VideoAnalyzer.drop_prefix VideoAnalyzer.docs_prefix s) as [r|] eqn:E.
    + apply drop_prefix_some in E. rewrite lazy_any_some. split.
      * intros (mid & tail & -> & Hnl & Hm & Hmin). exists mid, tail.
        repeat split; auto.
        -- now apply match_literal_id_some.
        -- intros m1 m2 H Hne. apply match_literal_id_none. eauto.
      * intros (mid & tail & Hs & Hnl & Hm & Hmin). exists mid, tail.
        rewrite E in Hs. apply str_app_inv_head in Hs.
        repeat split; auto.
        -- now apply match_literal_id_some.
        -- intros m1 m2 H Hne. apply match_literal_id_none. eauto.
    + split; [discriminate|]. intros (mid & tail & Hs & _). exfalso.
      apply (proj1 (drop_prefix_none _ _) E _ Hs).
  - destruct k; split; try discriminate; intros [].
Qed.

Lemma pattern_at_none (k : nat) (s : string) :
  pattern_at k s = None <-> ~ Spec.occurs_at k s.
Proof.
  destruct k as [|[|[|k]]]; unfold pattern_at, VideoAnalyzer.drive_patterns;
    cbn [nth Spec.occurs_at].
  - apply match_literal_id_none.
  - apply match_literal_id_none.
  - unfold VideoAnalyzer.pattern_docs.
    destruct (VideoAnalyzer.drop_prefix VideoAnalyzer.docs_prefix s) as [r|] eqn:E.
    + apply drop_prefix_some in E. rewrite lazy_any_none. split.
      * intros H (mid & tail & Hs & Hnl & Hoc).
        rewrite E in Hs. apply str_app_inv_head in Hs.
        apply (proj1 (match_literal_id_none _ _) (H mid tail Hs Hnl) Hoc).
      * intros H mid tail Hr Hnl. apply match_literal_id_none. intros Hoc.
        apply H. exists mid, tail. rewrite E, Hr. auto.
    + split; [|reflexivity]. intros _ (mid & tail & Hs & _).
      apply (proj1 (drop_prefix_none _ _) E _ Hs).
  - destruct k; split; auto.
Qed.

Lemma search_pattern_none (k : nat) (link : string) :
  VideoAnalyzer.search (pattern_at k) link = None <-> ~ Spec.occurs_in k link.
Proof.
  rewrite search_none. unfold Spec.occurs_in. split.
  - intros H (pre & s & Hs & Hoc). apply (proj1 (pattern_at_none k s) (H pre s Hs) Hoc).
  - intros H pre s Hs. apply pattern_at_none. intros Hoc. apply H. eauto.
Qed.

Lemma search_pattern_some (k : nat) (link id : string) :
  VideoAnalyzer.search (pattern_at k) link = Some id <->
  exists pre s, link = pre ++ s /\ Spec.matches_at k s id /\
    forall pre1 s1, link = pre1 ++ s1 ->
      (String.length pre1 < String.length pre)%nat -> ~ Spec.occurs_at k s1.
Proof.
  rewrite search_some. split; intros (pre & s & Hs & Hm & Hmin); exists pre, s;
    (split; [exact Hs|]); (split; [now apply pattern_at_some|]);
    intros pre1 s1 H1 Hlen; apply pattern_at_none; eauto.
Qed.

Lemma literal_then_id_loose (p s id : string) :
  Spec.literal_then_id p s id -> Spec.literal_then_id_char p s.
Proof.
  intros (rest & -> & Hne & Hall & _).
  destruct id as [|c id]; [contradiction|]. cbn in Hall.
  apply andb_true_iff in Hall as [Hc _]. exists c, (id ++ rest). auto.
Qed.

Lemma matches_occurs (k : nat) (s id : string) :
  Spec.matches_at k s id -> Spec.occurs_at k s.
Proof.
  destruct k as [|[|[|k]]]; cbn [Spec.matches_at Spec.occurs_at]; auto.
  - apply literal_then_id_loose.
  - apply literal_then_id_loose.
  - intros (mid & tail & Hs & Hnl & Hm & _). exists mid, tail.
    repeat split; auto. eapply literal_then_id_loose; eauto.
Qed.

Lemma search_pattern_found (k : nat) (link g : string) :
  VideoAnalyzer.search (pattern_at k) link = Some g -> Spec.occurs_in k link.
Proof.
  intros H. apply search_pattern_some in H as (pre & s & Hs & Hm & _).
  exists pre, s. split; [exact Hs | eapply matches_occurs; eauto].
Qed.

(** A pattern that is found before the [k]-th contradicts a first
    occurrence at [k]. *)
Ltac found_earlier Hearlier j :=
  exfalso; apply (Hearlier j); [lia | eapply search_pattern_found; eauto].

(** A first occurrence at [k] contradicts that pattern [k] is not found. *)
Ltac occurs_after_all Hnone :=
  exfalso; apply Hnone; eexists _, _; split; [eassumption | eapply matches_occurs; eauto].

Lemma first_match_some (link id : string) :
  VideoAnalyzer.first_match VideoAnalyzer.drive_patterns link = Some id <->
  Spec.first_occurrence link id.
Proof.
  unfold Spec.first_occurrence. cbn [VideoAnalyzer.first_match VideoAnalyzer.drive_patterns].
  change VideoAnalyzer.pattern_file with (pattern_at 0).
  change VideoAnalyzer.pattern_open with (pattern_at 1).
  change VideoAnalyzer.pattern_docs with (pattern_at 2).
  destruct (VideoAnalyzer.search (pattern_at 0) link) as [g0|] eqn:E0.
  { split.
    - intros [= ->]. apply search_pattern_some in E0 as (pre & s & Hs & Hm & Hmin).
      exists 0%nat, pre, s. repeat split; auto. intros j Hj; lia.
    - intros (k & pre & s & Hs & Hm & Hearlier & Hmin). destruct k as [|k].
      + assert (H : VideoAnalyzer.search (pattern_at 0) link = Some id)
          by (apply search_pattern_some; eauto). congruence.
      + found_earlier Hearlier 0%nat. }
  apply search_pattern_none in E0.
  destruct (VideoAnalyzer.search (pattern_at 1) link) as [g1|] eqn:E1.
  { split.
    - intros [= ->]. apply search_pattern_some in E1 as (pre & s & Hs & Hm & Hmin).
      exists 1%nat, pre, s. repeat split; auto.
      intros j Hj. assert (j = 0)%nat as -> by lia. exact E0.
    - intros (k & pre & s & Hs & Hm & Hearlier & Hmin). destruct k as [|[|k]].
      + occurs_after_all E0.
      + assert (H : VideoAnalyzer.search (pattern_at 1) link = Some id)
          by (apply search_pattern_some; eauto). congruence.
      + found_earlier Hearlier 1%nat. }
  apply search_pattern_none in E1.
  destruct (VideoAnalyzer.search (pattern_at 2) link) as [g2|] eqn:E2.
  { split.
    - intros [= ->]. apply search_pattern_some in E2 as (pre & s & Hs & Hm & Hmin).
      exists 2%nat, pre, s. repeat split; auto.
      intros j Hj. assert (j = 0 \/ j = 1)%nat as [-> | ->] by lia; assumption.
    - intros (k & pre & s & Hs & Hm & Hearlier & Hmin). destruct k as [|[|[|k]]].
      + occurs_after_all E0.
      + occurs_after_all E1.
      + assert (H : VideoAnalyzer.search (pattern_at 2) link = Some id)
          by (apply search_pattern_some; eauto). congruence.
      + destruct Hm. }
  apply search_pattern_none in E2.
  split; [discriminate|].
  intros (k & pre & s & Hs & Hm & _).
  destruct k as [|[|[|k]]];
    [occurs_after_all E0 | occurs_after_all E1 | occurs_after_all E2 | destruct Hm].
Qed.

Lemma first_match_none (link : string) :
  VideoAnalyzer.first_match VideoAnalyzer.drive_patterns link = None <->
  forall k, ~ Spec.occurs_in k link.
Proof.
  cbn [VideoAnalyzer.first_match VideoAnalyzer.drive_patterns].
  change VideoAnalyzer.pattern_file with (pattern_at 0).
  change VideoAnalyzer.pattern_open with (pattern_at 1).
  change VideoAnalyzer.pattern_docs with (pattern_at 2).
  split.
  - intros H k.
    destruct (VideoAnalyzer.search (pattern_at 0) link) eqn:E0; [discriminate|].
    destruct (VideoAnalyzer.search (pattern_at 1) link) eqn:E1; [discriminate|].
    destruct (VideoAnalyzer.search (pattern_at 2) link) eqn:E2; [discriminate|].
    destruct k as [|[|[|k]]]; [now apply search_pattern_none ..|].
    intros (pre & s & _ & []).
  - intros H.
    rewrite (proj2 (search_pattern_none 0 link) (H 0%nat)).
    rewrite (proj2 (search_pattern_none 1 link) (H 1%nat)).
    rewrite (proj2 (search_pattern_none 2 link) (H 2%nat)).
    reflexivity.
Qed.

Lemma literal_then_id_char_app (p s suf : string) :
  Spec.literal_then_id_char p s -> Spec.literal_then_id_char p (s ++ suf).
Proof.
  intros (c & rest & -> & Hc). exists c, (rest ++ suf).
  split; [|exact Hc]. now rewrite str_app_assoc.
Qed.

Lemma occurs_at_app (k : nat) (s suf : string) :
  Spec.occurs_at k s -> Spec.occurs_at k (s ++ suf).
Proof.
  destruct k as [|[|[|k]]]; cbn [Spec.occurs_at]; auto.
  - apply literal_then_id_char_app.
  - apply literal_then_id_char_app.
  - intros (mid & tail & -> & Hnl & Hoc). exists mid, (tail ++ suf).
    repeat split; auto.
    + now rewrite !str_app_assoc.
    + now apply literal_then_id_char_app.
Qed.

(** C10: the link validation searches the link for the accepted shapes
    without anchoring.  A link is valid exactly when one of the shapes
    occurs somewhere in it, whatever stands before or behind it; the file
    identifier is then the one captured at the first occurrence of the
    first pattern that occurs; and a link is rejected exactly when no
    shape occurs in it.  The outcome of the reachability request plays no
    part in this. *)
Theorem link_validation_unanchored (probe : string -> option nat) (link : string) :
  let v := VideoAnalyzer.validate_google_drive_link probe link in
  (VideoAnalyzer.valid v = true <-> exists k, Spec.occurs_in k link) /\
  (VideoAnalyzer.valid v = false <-> forall k, ~ Spec.occurs_in k link) /\
  (forall id, Spec.first_occurrence link id ->
     VideoAnalyzer.valid v = true /\ VideoAnalyzer.file_id v = Some id) /\
  (VideoAnalyzer.valid v = true ->
     exists id, VideoAnalyzer.file_id v = Some id /\ Spec.first_occurrence link id) /\
  (forall k pre s suf, link = pre ++ s ++ suf -> Spec.occurs_at k s ->
     VideoAnalyzer.valid v = true).
Proof.
  cbv zeta. unfold VideoAnalyzer.validate_google_drive_link.
  destruct (VideoAnalyzer.first_match VideoAnalyzer.drive_patterns link) as [id|] eqn:E.
  - assert (Hocc : exists k, Spec.occurs_in k link).
    { apply first_match_some in E as (k & pre & s & Hs & Hm & _).
      exists k, pre, s. split; [exact Hs | eapply matches_occurs; eauto]. }
    cbn [VideoAnalyzer.valid VideoAnalyzer.file_id].
    split; [|split; [|split; [|split]]].
    + split; auto.
    + split; [discriminate|]. intros H. exfalso. destruct Hocc as [k Hk].
      exact (H k Hk).
    + intros id' H. apply first_match_some in H. split; congruence.
    + intros _. exists id. split; [reflexivity | now apply first_match_some].
    + reflexivity.
  - pose proof (proj1 (first_match_none link) E) as Hno.
    cbn [VideoAnalyzer.valid VideoAnalyzer.file_id].
    split; [|split; [|split; [|split]]].
    + split; [discriminate|]. intros [k Hk]. exfalso. exact (Hno k Hk).
    + split; auto.
    + intros id H. apply first_match_some in H. congruence.
    + discriminate.
    + intros k pre s suf Hl Hoc. exfalso. apply (Hno k).
      exists pre, (s ++ suf). split; [exact Hl | now apply occurs_at_app].
Qed.

(** The two links of the specification, and a foreign URL that embeds a
    Drive link. *)
Lemma link_validation_unanchored_witness :
  VideoAnalyzer.valid
    (VideoAnalyzer.validate_google_drive_link (fun _ => None)
       "https://evil.example/?next=https://drive.google.com/file/d/ABC123/view") = true.
Proof.
  destruct (link_validation_unanchored (fun _ => None)
    "https://evil.example/?next=https://drive.google.com/file/d/ABC123/view")
    as (_ & _ & _ & _ & H).
  apply (H 0%nat "https://evil.example/?next="
           "https://drive.google.com/file/d/ABC123" "/view").
  - reflexivity.
  - exists "A"%char, "BC123". split; reflexivity.
Defined.

Example validate_drive_file_link :
  let v := VideoAnalyzer.validate_google_drive_link (fun _ => None)
             "https://drive.google.com/file/d/ABC123/view" in
  VideoAnalyzer.valid v = true /\ VideoAnalyzer.file_id v = Some "ABC123".
Proof. split; reflexivity. Qed.

Example validate_foreign_link :
  VideoAnalyzer.valid
    (VideoAnalyzer.validate_google_drive_link (fun _ => None)
       "https://example.com/video") = false.
Proof. reflexivity. Qed.

(** ** Video submission *)

Lemma find_none_filter {A : Type} (f : A -> bool) (l : list A) :
  find f l = None -> filter f l = [].
Proof.
  induction l as [|a l IH]; cbn; [reflexivity|].
  destruct (f a); [discriminate | exact IH].
Qed.

Lemma has_video_found (student_id : string) (s : Store.t) :
  Spec.has_video student_id s ->
  exists v, Store.get_video_by_student student_id s = Some v.
Proof.
  intros (v & Hin & Hid). unfold Store.get_video_by_student.
  destruct (find (Store.is_video_of student_id) (Store.get_all_videos s)) as [v'|] eqn:E;
    [eauto|].
  exfalso. pose proof (find_none _ _ E v Hin) as H.
  unfold Store.is_video_of in H. rewrite Hid, String.eqb_refl in H. discriminate.
Qed.

(** C8: when the student already has a video submission in the store,
    [submit_video] answers with [success = false] and a message, hands
    nothing to the store and leaves it as it was; and no call of
    [submit_video] takes a store with at most one submission per student to
    one with more. *)
Theorem duplicate_submission_rejected (probe : string -> option nat)
    (now : string) (io : Store.write_outcome)
    (student_id student_email video_link topic : string) (w : VideoUtils.World) :
  let r := fst (VideoUtils.submit_video probe now io student_id student_email
                  video_link topic w) in
  let w' := snd (VideoUtils.submit_video probe now io student_id student_email
                   video_link topic w) in
  (Spec.has_video student_id (VideoUtils.store w) ->
     VideoUtils.success r = false /\
     VideoUtils.video_id r = None /\
     VideoUtils.submit_message r <> "" /\
     (VideoAnalyzer.valid (VideoAnalyzer.validate_google_drive_link probe video_link) = true ->
      VideoUtils.submit_message r =
        "You have already submitted a video. Only one submission is allowed per student.") /\
     w' = w) /\
  (Spec.at_most_one_video (VideoUtils.store w) ->
     Spec.at_most_one_video (VideoUtils.store w')).
Proof.
  cbv zeta. unfold VideoUtils.submit_video.
  destruct (VideoAnalyzer.valid (VideoAnalyzer.validate_google_drive_link probe video_link))
    eqn:Ev; cbn [negb].
  2:{ split; [|auto]. intros _. cbn. repeat split; try discriminate.
      unfold VideoAnalyzer.validate_google_drive_link in *.
      destruct (VideoAnalyzer.first_match _ _); cbn in *; discriminate. }
  unfold VideoUtils.bind, VideoUtils.read.
  destruct (Store.get_video_by_student student_id (VideoUtils.store w)) as [v|] eqn:Eg.
  { split; [|auto]. intros _. cbn. repeat split; discriminate. }
  split.
  { intros H. apply has_video_found in H as [v Hv]. congruence. }
  intros Hinv sid'.
  unfold VideoUtils.write, VideoUtils.ret, VideoUtils.send_email.
  destruct io as [u|]; cbn.
  2:{ apply Hinv. }
  unfold Store.get_all_videos. cbn.
  eapply Nat.le_trans; [apply filter_values_set|].
  unfold Store.is_video_of at 2. cbn [Store.vs_student_id].
  destruct (String.eqb_spec student_id sid') as [<-|Hne].
  - unfold Store.get_video_by_student in Eg. apply find_none_filter in Eg.
    unfold Store.get_all_videos in Eg. rewrite Eg. cbn. lia.
  - specialize (Hinv sid'). unfold Store.get_all_videos in Hinv. lia.
Qed.

Lemma duplicate_submission_rejected_witness :
  let s := {| Store.results := [];
              Store.videos :=
                [("v1", Store.mkVideoSubmission (Some "alice") (Some "link") None None
                          (Some "submitted") None None None None None)];
              Store.final_results := [] |} in
  let w := {| VideoUtils.store := s; VideoUtils.log := [] |} in
  snd (VideoUtils.submit_video (fun _ => None) "2024-01-01"
         (Some (Store.mkUuid "v" "2")) "alice" "alice@example.com"
         "https://drive.google.com/file/d/ABC123/view" "General" w) = w.
Proof.
  cbv zeta.
  refine (let H := duplicate_submission_rejected (fun _ => None) "2024-01-01"
            (Some (Store.mkUuid "v" "2")) "alice" "alice@example.com"
            "https://drive.google.com/file/d/ABC123/view" "General" _ in _).
  destruct H as [H _]. apply H.
  eexists. split; [left; reflexivity | reflexivity].
Defined.

(** A first submission with an accepted link is saved and confirmed. *)
Example first_submission_accepted :
  let w := {| VideoUtils.store :=
                {| Store.results := []; Store.videos := []; Store.final_results := [] |};
              VideoUtils.log := [] |} in
  let out := VideoUtils.submit_video (fun _ => Some 200%nat) "2024-01-01"
               (Some (Store.mkUuid "v" "1")) "alice" "alice@example.com"
               "https://drive.google.com/file/d/ABC123/view" "General" w in
  VideoUtils.success (fst out) = true /\
  VideoUtils.video_id (fst out) = Some "v1" /\
  Dict.keys (Store.videos (VideoUtils.store (snd out))) = ["v1"] /\
  Spec.has_video "alice" (VideoUtils.store (snd out)).
Proof.
  cbv zeta. repeat split. eexists. split; [left; reflexivity | reflexivity].
Qed.

(** ** Aggregation *)


Lemma last_where_snoc {A : Type} (f : A -> bool) (l : list A) (x : A) :
  Spec.last_where f (l ++ [x]) = if f x then Some x else Spec.last_where f l.
Proof. unfold Spec.last_where. now rewrite rev_unit. Qed.



Lemma truthy_iff (s : string) : VideoUtils.truthy s = true <-> s <> "".
Proof.
  unfold VideoUtils.truthy. rewrite negb_true_iff. apply String.eqb_neq.
Qed.

(** *** The first loop *)

Lemma seeded_snoc (qs : list Store.QuizResult) (q : Store.QuizResult) :
  seeded (qs ++ [q]) = VideoUtils.process_quiz_result (seeded qs) q.
Proof. unfold seeded. now rewrite fold_left_app. Qed.

Lemma seeded_NoDup (qs : list Store.QuizResult) : NoDup (Dict.keys (seeded qs)).
Proof.
  induction qs as [|q qs IH] using rev_ind; [constructor|].
  rewrite seeded_snoc. unfold VideoUtils.process_quiz_result. cbv zeta.
  destruct (VideoUtils.truthy _); [now apply NoDup_keys_set | exact IH].
Qed.

Lemma seeded_get (qs : list Store.QuizResult) (sid : string) :
  Dict.get sid (seeded qs) =
  if VideoUtils.truthy sid
  then option_map (VideoUtils.seed_entry sid) (Spec.last_quiz sid qs)
  else None.
Proof.
  induction qs as [|q qs IH] using rev_ind.
  - cbn. now destruct (VideoUtils.truthy sid).
  - rewrite seeded_snoc. unfold Spec.last_quiz in *. rewrite last_where_snoc.
    unfold VideoUtils.process_quiz_result. cbv zeta. fold (Spec.quiz_sid q).
    destruct (String.eqb_spec (Spec.quiz_sid q) sid) as [<-|Hne].
    + destruct (VideoUtils.truthy (Spec.quiz_sid q)) eqn:Et.
      * now rewrite get_set_same.
      * exact IH.
    + destruct (VideoUtils.truthy (Spec.quiz_sid q)) eqn:Et.
      * rewrite get_set_other by congruence. exact IH.
      * exact IH.
Qed.


(** *** The second loop *)

Lemma merged_snoc vs v d :
  merged (vs ++ [v]) d = VideoUtils.process_video_result (merged vs d) v.
Proof. unfold merged. now rewrite fold_left_app. Qed.

Lemma merge_video_twice v v' e :
  VideoUtils.merge_video v (VideoUtils.merge_video v' e) = VideoUtils.merge_video v e.
Proof. reflexivity. Qed.

Lemma merged_keys vs d : Dict.keys (merged vs d) = Dict.keys d.
Proof.
  induction vs as [|v vs IH] using rev_ind; [reflexivity|].
  rewrite merged_snoc. unfold VideoUtils.process_video_result. cbv zeta.
  destruct (Dict.get _ (merged vs d)) as [e|] eqn:E; [|exact IH].
  rewrite keys_set.
  assert (H : Dict.mem (Store.with_default "" (Store.vs_student_id v)) (merged vs d) = true).
  { unfold Dict.mem. now rewrite E. }
  now rewrite H.
Qed.

Lemma merged_get vs d sid :
  Dict.get sid (merged vs d) = option_map (with_last_video sid vs) (Dict.get sid d).
Proof.
  induction vs as [|v vs IH] using rev_ind.
  - cbn. now destruct (Dict.get sid d).
  - rewrite merged_snoc. unfold with_last_video, Spec.last_video in *.
    rewrite last_where_snoc. unfold VideoUtils.process_video_result. cbv zeta.
    fold (Spec.video_sid v).
    destruct (String.eqb_spec (Spec.video_sid v) sid) as [<-|Hne].
    + rewrite IH. destruct (Dict.get (Spec.video_sid v) d) as [e|] eqn:E; cbn.
      * rewrite get_set_same. f_equal.
        destruct (Spec.last_where _ vs); reflexivity.
      * exact IH.
    + destruct (Dict.get (Spec.video_sid v) (merged vs d)) eqn:E.
      * rewrite get_set_other by congruence. exact IH.
      * exact IH.
Qed.

(** *** The result of the three loops *)

Lemma student_id_entry_of qs vs sid q :
  VideoUtils.student_id (entry_of qs vs sid q) = sid.
Proof.
  unfold entry_of, with_last_video. destruct (Spec.last_video sid vs); reflexivity.
Qed.

Lemma combine_in qs vs c :
  In c (VideoUtils.combine qs vs) <->
  exists sid q, sid <> "" /\ Spec.last_quiz sid qs = Some q /\ c = entry_of qs vs sid q.
Proof.
  unfold VideoUtils.combine. fold (seeded qs). fold (merged vs (seeded qs)).
  rewrite in_map_iff. split.
  - intros (e & <- & Hin).
    apply in_values_get in Hin; [|rewrite merged_keys; apply seeded_NoDup].
    destruct Hin as [sid Hget]. rewrite merged_get, seeded_get in Hget.
    destruct (VideoUtils.truthy sid) eqn:Et; [|discriminate].
    destruct (Spec.last_quiz sid qs) as [q|] eqn:Eq; [|discriminate].
    cbn in Hget. injection Hget as <-. exists sid, q.
    split; [now apply truthy_iff | split; [exact Eq | reflexivity]].
  - intros (sid & q & Hne & Hq & ->). apply truthy_iff in Hne.
    exists (with_last_video sid vs (VideoUtils.seed_entry sid q)). split; [reflexivity|].
    apply in_values_get; [rewrite merged_keys; apply seeded_NoDup|].
    exists sid. now rewrite merged_get, seeded_get, Hne, Hq.
Qed.











(** ** Release of the final results *)







(** ** Selection *)

Lemma insert_desc_perm x l : Permutation (x :: l) (VideoUtils.insert_desc x l).
Proof.
  induction l as [|y r IH]; cbn; [reflexivity|].
  destruct (gtb _ _); [|reflexivity].
  rewrite perm_swap. now apply perm_skip.
Qed.

(** The sorted list has the entries of the input. *)
Lemma sorted_desc_perm l : Permutation l (VideoUtils.sorted_desc l).
Proof.
  induction l as [|x l IH]; cbn; [constructor|].
  rewrite <- insert_desc_perm. now apply perm_skip.
Qed.





(** The selection is the head of the sorted list, and nothing is written. *)
Lemma select_top_students_head (percentage : Q) (w : VideoUtils.World) :
  let out := fst (VideoUtils.calculate_combined_results w) in
  VideoUtils.select_top_students percentage w =
  (firstn (Z.to_nat (VideoUtils.num_to_select (List.length out) percentage))
          (VideoUtils.sorted_desc out), w).
Proof.
  cbv zeta. unfold VideoUtils.select_top_students, VideoUtils.bind, VideoUtils.ret.
  cbn. f_equal. f_equal. f_equal. f_equal.
  symmetry. apply Permutation_length, sorted_desc_perm.
Qed.

(** With no student the selection is empty. *)
Lemma select_top_students_empty (percentage : Q) (w : VideoUtils.World) :
  fst (VideoUtils.calculate_combined_results w) = [] ->
  fst (VideoUtils.select_top_students percentage w) = [].
Proof.
  intros H. rewrite select_top_students_head. cbv zeta. rewrite H. cbn.
  now rewrite firstn_nil.
Qed.

(** Ten students: 20 percent selects two, 0 percent selects one. *)
Example select_top_students_ten :
  let w := {| VideoUtils.store := Spec.cohort (fun k => inject_Z (Z.of_nat (50 + k))) 10;
              VideoUtils.log := [] |} in
  map VideoUtils.student_id (fst (VideoUtils.select_top_students 20 w))
  = [Spec.student_name 9; Spec.student_name 8] /\
  map VideoUtils.student_id (fst (VideoUtils.select_top_students 0 w))
  = [Spec.student_name 9].
Proof. cbv zeta. split; vm_compute; reflexivity. Qed.

(** With equal totals the selection follows the order of the records. *)
Example select_top_students_ties :
  let w := {| VideoUtils.store := Spec.cohort (fun _ => 70%Q) 10;
              VideoUtils.log := [] |} in
  map VideoUtils.student_id (fst (VideoUtils.select_top_students 20 w))
  = [Spec.student_name 0; Spec.student_name 1].
Proof. cbv zeta. vm_compute. reflexivity. Qed.

(** C2 on 50 students and 58 percent: the product [50 * (58 / 100)] is
    computed in binary floating point as 28.999999999999996, so that 28
    students are selected where [floor(50 * 58 / 100)] is 29; the same
    happens with 100 students and 29 percent. *)
Theorem selection_count_float_slip :
  let w := fun n => {| VideoUtils.store := Spec.cohort (fun _ => 70%Q) n;
                       VideoUtils.log := [] |} in
  List.length (fst (VideoUtils.calculate_combined_results (w 50%nat))) = 50%nat /\
  List.length (fst (VideoUtils.select_top_students 58 (w 50%nat))) = 28%nat /\
  Z.max 1 (50 * 58 / 100) = 29 /\
  List.length (fst (VideoUtils.calculate_combined_results (w 100%nat))) = 100%nat /\
  List.length (fst (VideoUtils.select_top_students 29 (w 100%nat))) = 28%nat /\
  Z.max 1 (100 * 29 / 100) = 29.
Proof. cbv zeta. repeat split; vm_compute; reflexivity. Qed.

(** * Further properties of the code *)

(** ** More on rounding *)

Lemma pow2_nonneg_exp (e : Z) : 0 <= e -> pow2 e = inject_Z (2 ^ e).
Proof. intros H. unfold pow2. now destruct (Z.leb_spec 0 e); [|lia]. Qed.

Lemma pow2_neg_exp (e : Z) : e < 0 -> pow2 e = (/ inject_Z (2 ^ (- e)))%Q.
Proof. intros H. unfold pow2. now destruct (Z.leb_spec 0 e); [lia|]. Qed.

(** [pow2 (ilog2 x)] is below [x]. *)
Lemma ilog2_lower (x : Q) : (0 < x)%Q -> (pow2 (ilog2 x) <= x)%Q.
Proof.
  intros Hpos. unfold ilog2. destruct x as [n d]. cbn [Qnum Qden].
  assert (Hn : 0 < n) by (unfold Qlt in Hpos; cbn in Hpos; lia).
  set (ln := Z.log2 n). set (ld := Z.log2 (Z.pos d)).
  destruct (Qle_bool (pow2 (ln - ld)) (n # d)) eqn:E; [now apply Qle_bool_iff|].
  pose proof (Z.log2_spec n Hn) as [Hn1 _]. fold ln in Hn1.
  pose proof (Z.log2_spec (Z.pos d) eq_refl) as [_ Hd2]. fold ld in Hd2.
  pose proof (Z.log2_nonneg n) as Hln. fold ln in Hln.
  pose proof (Z.log2_nonneg (Z.pos d)) as Hld. fold ld in Hld.
  destruct (Z.le_gt_cases 0 (ln - ld - 1)) as [Hk|Hk].
  - rewrite pow2_nonneg_exp by exact Hk. unfold Qle, inject_Z. cbn [Qnum Qden].
    rewrite Z.mul_1_r.
    assert (H : 2 ^ (ln - ld - 1) * 2 ^ Z.succ ld = 2 ^ ln).
    { rewrite <- Z.pow_add_r by lia. f_equal. lia. }
    assert (Hp : 0 < 2 ^ (ln - ld - 1)) by (apply Z.pow_pos_nonneg; lia).
    assert (Hm : 2 ^ (ln - ld - 1) * Z.pos d <= 2 ^ (ln - ld - 1) * 2 ^ Z.succ ld)
      by (apply Z.mul_le_mono_nonneg_l; lia).
    lia.
  - rewrite pow2_neg_exp by exact Hk.
    assert (Hp : 0 < 2 ^ (- (ln - ld - 1))) by (apply Z.pow_pos_nonneg; lia).
    assert (H : 2 ^ ln * 2 ^ (- (ln - ld - 1)) = 2 ^ Z.succ ld).
    { rewrite <- Z.pow_add_r by lia. f_equal. lia. }
    apply Qle_shift_inv_r.
    + change 0%Q with (inject_Z 0). now rewrite <- Zlt_Qlt.
    + unfold Qle, Qmult, inject_Z. cbn [Qnum Qden].
      assert (Hm : 2 ^ ln * 2 ^ (- (ln - ld - 1)) <= n * 2 ^ (- (ln - ld - 1)))
        by (apply Z.mul_le_mono_nonneg_r; lia).
      lia.
Qed.

(** A number above an integer does not round below it. *)
Lemma rne_ge_Z (x : Q) (n : Z) : (inject_Z n <= x)%Q -> n <= rne x.
Proof.
  intros Hx.
  assert (Hf : n <= Qfloor x).
  { rewrite <- (Qfloor_Z n). now apply Qfloor_resp_le. }
  pose proof (rne_bounds x). lia.
Qed.

Lemma rnd_at_ge_0 (e : Z) (x : Q) : (0 <= x)%Q -> (0 <= rnd_at e x)%Q.
Proof.
  intros Hx. unfold rnd_at. rewrite Qred_correct.
  pose proof (pow2_pos e) as Hp.
  assert (Hr : 0 <= rne (x / pow2 e)).
  { apply rne_ge_Z. change (inject_Z 0) with 0%Q.
    apply Qle_shift_div_l; [exact Hp | lra]. }
  rewrite Zle_Qle in Hr. change (inject_Z 0) with 0%Q in Hr. nra.
Qed.

(** Rounding keeps the sign. *)
Lemma rnd_nonneg (x : Q) : (0 <= x)%Q -> (0 <= rnd x)%Q.
Proof.
  intros Hx. unfold rnd. destruct (Qeq_bool x 0); [apply Qle_refl|].
  now apply rnd_at_ge_0.
Qed.

(** Rounding to binary64 does not cross an integer below 2^53 from above. *)
Lemma rnd_ge_int (x : Q) (n : Z) :
  0 < n < 2 ^ 53 -> (inject_Z n <= x)%Q -> (inject_Z n <= rnd x)%Q.
Proof.
  intros [Hn0 Hn] Hx.
  assert (Hn0' : (0 < inject_Z n)%Q) by (change 0%Q with (inject_Z 0); now rewrite <- Zlt_Qlt).
  assert (Hpos : (0 < x)%Q) by lra.
  unfold rnd. destruct (Qeq_bool x 0) eqn:E0.
  { apply Qeq_bool_iff in E0. lra. }
  unfold rnd_at. rewrite Qred_correct.
  pose proof (pow2_pos (cexp x)) as Hp.
  assert (Hid : forall y : Q, (y / pow2 (cexp x) * pow2 (cexp x) == y)%Q).
  { intros y. field. intros Habs. rewrite Habs in Hp. now apply Qlt_irrefl in Hp. }
  destruct (Z.le_gt_cases (cexp x) 0) as [He|He].
  - assert (Hint : (inject_Z n / pow2 (cexp x) == inject_Z (n * 2 ^ (- cexp x)))%Q).
    { destruct (Z.eq_dec (cexp x) 0) as [He0|Hne].
      - rewrite He0. change (pow2 0) with 1%Q. change (2 ^ (- 0)) with 1.
        rewrite Z.mul_1_r. field.
      - rewrite pow2_neg_exp by lia. rewrite inject_Z_mult. field.
        assert (H : 0 < 2 ^ (- cexp x)) by (apply Z.pow_pos_nonneg; lia).
        intros Habs. rewrite Zlt_Qlt in H. change (inject_Z 0) with 0%Q in H. lra. }
    assert (Hr : n * 2 ^ (- cexp x) <= rne (x / pow2 (cexp x))).
    { apply rne_ge_Z. rewrite <- Hint.
      apply Qmult_le_compat_r; [exact Hx|]. apply Qlt_le_weak. now apply Qinv_lt_0_compat. }
    rewrite Zle_Qle in Hr. rewrite <- Hint in Hr.
    rewrite <- (Hid (inject_Z n)).
    apply Qmult_le_compat_r; [exact Hr | lra].
  - assert (Hlog : ilog2 x = cexp x + 52).
    { unfold cexp in *. rewrite Qabs_pos_eq in * by exact Hpos. lia. }
    pose proof (ilog2_lower x Hpos) as Hlow. rewrite Hlog in Hlow.
    rewrite pow2_nonneg_exp in Hlow by lia.
    rewrite (pow2_nonneg_exp (cexp x)) in * by lia.
    assert (Hsplit : 2 ^ (cexp x + 52) = 2 ^ 52 * 2 ^ cexp x)
      by (rewrite Z.pow_add_r by lia; lia).
    assert (Hpe : 0 < 2 ^ cexp x) by (apply Z.pow_pos_nonneg; lia).
    assert (Hr : 2 ^ 52 <= rne (x / inject_Z (2 ^ cexp x))).
    { apply rne_ge_Z. apply Qle_shift_div_l; [exact Hp|].
      rewrite <- inject_Z_mult, <- Hsplit. exact Hlow. }
    rewrite Zle_Qle in Hr.
    apply Qle_trans with (inject_Z (2 ^ 52) * inject_Z (2 ^ cexp x))%Q.
    + rewrite <- inject_Z_mult, <- Zle_Qle.
      assert (H2 : 2 ^ 1 <= 2 ^ cexp x) by (apply Z.pow_le_mono_r; lia).
      assert (Hm : 2 ^ 52 * 2 ^ 1 <= 2 ^ 52 * 2 ^ cexp x)
        by (apply Z.mul_le_mono_nonneg_l; lia).
      change (2 ^ 52 * 2 ^ 1) with (2 ^ 53) in Hm. lia.
    + apply Qmult_le_compat_r; [exact Hr | lra].
Qed.

Lemma round2_ge_int (x : Q) (n : Z) :
  0 < n < 2 ^ 46 -> (inject_Z n <= x)%Q -> (inject_Z n <= round2 x)%Q.
Proof.
  intros Hn Hx. unfold round2. apply rnd_ge_int; [lia|].
  assert (Hr : n * 100 <= rne (x * 100)).
  { apply rne_ge_Z. rewrite inject_Z_mult. change (inject_Z 100) with 100%Q. lra. }
  rewrite Zle_Qle in Hr. rewrite inject_Z_mult in Hr.
  change (inject_Z 100) with 100%Q in Hr.
  apply Qle_shift_div_l; [reflexivity | exact Hr].
Qed.

Lemma round2_nonneg (x : Q) : (0 <= x)%Q -> (0 <= round2 x)%Q.
Proof.
  intros Hx. unfold round2. apply rnd_nonneg.
  assert (Hr : 0 <= rne (x * 100)).
  { apply rne_ge_Z. change (inject_Z 0) with 0%Q. lra. }
  rewrite Zle_Qle in Hr. change (inject_Z 0) with 0%Q in Hr.
  apply Qle_shift_div_l; [reflexivity | lra].
Qed.

(** ** The fallback grading, continued *)

(** A rounded value is in lowest terms. *)
Lemma rnd_canonical (x y : Q) : (rnd x == y)%Q -> rnd x = Qred y.
Proof.
  intros H. apply Qred_complete in H. rewrite <- H.
  unfold rnd. destruct (Qeq_bool x 0); [reflexivity|].
  unfold rnd_at. symmetry. apply Qred_complete, Qred_correct.
Qed.

Lemma of_Z_100 : of_Z 100 = 100%Q.
Proof. vm_compute. reflexivity. Qed.

Lemma int_truediv_same (n : Z) : 0 < n -> int_truediv n n = 1%Q.
Proof.
  intros Hn. unfold int_truediv.
  assert (H1 : (inject_Z n / inject_Z n == 1)%Q).
  { field. intros H. rewrite Zlt_Qlt in Hn. change (inject_Z 0) with 0%Q in Hn. lra. }
  change 1%Q with (Qred 1). apply rnd_canonical.
  apply Qle_antisym.
  - apply (rnd_le_int _ 1); [lia | rewrite H1; apply Qle_refl].
  - apply (rnd_ge_int _ 1); [lia | rewrite H1; apply Qle_refl].
Qed.

Lemma int_truediv_zero (n : Z) : int_truediv 0 n = 0%Q.
Proof.
  unfold int_truediv, rnd.
  assert (H : Qeq_bool (inject_Z 0 / inject_Z n) 0 = true).
  { apply Qeq_bool_iff. unfold Qdiv. change (inject_Z 0) with 0%Q. ring. }
  now rewrite H.
Qed.

Lemma int_truediv_range (c n : Z) :
  0 <= c <= n -> 0 < n -> (0 <= int_truediv c n <= 1)%Q.
Proof.
  intros [Hc Hcn] Hn. unfold int_truediv.
  assert (Hn' : (0 < inject_Z n)%Q) by (change 0%Q with (inject_Z 0); now rewrite <- Zlt_Qlt).
  assert (Hc' : (0 <= inject_Z c)%Q) by (change 0%Q with (inject_Z 0); now rewrite <- Zle_Qle).
  assert (Hcn' : (inject_Z c <= inject_Z n)%Q) by now rewrite <- Zle_Qle.
  split.
  - apply rnd_nonneg. apply Qle_shift_div_l; [exact Hn' | lra].
  - apply (rnd_le_int _ 1); [lia|]. apply Qle_shift_div_r; [exact Hn'|].
    change (inject_Z 1) with 1%Q. lra.
Qed.

Lemma graded_length (sa ca : list string) (qs : list QuizGrader.Question) :
  QuizGrader.correct_answers (QuizGrader._create_basic_grading sa ca qs)
  = List.length (filter QuizGrader.is_correct
                   (map (QuizGrader.grade_question sa ca) (seq 0 (List.length qs)))).
Proof. unfold QuizGrader._create_basic_grading. now rewrite grading_loop_spec. Qed.

Lemma graded_score (sa ca : list string) (qs : list QuizGrader.Question) :
  let r := QuizGrader._create_basic_grading sa ca qs in
  QuizGrader.score_percentage r
  = round2 (QuizGrader.raw_percentage (QuizGrader.correct_answers r) qs) /\
  QuizGrader.grade r
  = QuizGrader._calculate_letter_grade
      (QuizGrader.raw_percentage (QuizGrader.correct_answers r) qs).
Proof.
  cbv zeta. unfold QuizGrader._create_basic_grading. rewrite grading_loop_spec.
  split; reflexivity.
Qed.

(** X1: The fallback grading never counts more right answers than there are
    questions, and its score lies between 0 and 100. *)
Theorem fallback_score_in_range (sa ca : list string) (qs : list QuizGrader.Question) :
  let r := QuizGrader._create_basic_grading sa ca qs in
  (QuizGrader.correct_answers r <= QuizGrader.total_questions r)%nat /\
  (0 <= QuizGrader.score_percentage r <= 100)%Q.
Proof.
  cbv zeta.
  assert (Hc : (QuizGrader.correct_answers (QuizGrader._create_basic_grading sa ca qs)
                <= List.length qs)%nat).
  { rewrite graded_length.
    eapply Nat.le_trans; [apply filter_length_le|]. now rewrite length_map, length_seq. }
  split.
  { unfold QuizGrader._create_basic_grading. rewrite grading_loop_spec. cbn.
    rewrite graded_length in Hc. exact Hc. }
  destruct (graded_score sa ca qs) as [-> _].
  set (c := QuizGrader.correct_answers _) in *.
  unfold QuizGrader.raw_percentage. destruct qs as [|q qs].
  - split; vm_compute; discriminate.
  - set (n := List.length (q :: qs)) in *.
    assert (Hr : (0 <= int_truediv (Z.of_nat c) (Z.of_nat n) <= 1)%Q).
    { apply int_truediv_range; [lia | subst n; cbn; lia]. }
    rewrite of_Z_100. unfold fmul. split.
    + apply round2_nonneg, rnd_nonneg. nra.
    + apply (round2_le_int _ 100); [lia|]. apply (rnd_le_int _ 100); [lia|].
      change (inject_Z 100) with 100%Q. nra.
Qed.

Lemma filter_all {A : Type} (f : A -> bool) (l : list A) :
  (forall x, In x l -> f x = true) -> filter f l = l.
Proof.
  induction l as [|a l IH]; cbn; intros H; [reflexivity|].
  rewrite (H a) by now left. f_equal. apply IH. intros x Hx. apply H. now right.
Qed.

Lemma filter_none {A : Type} (f : A -> bool) (l : list A) :
  (forall x, In x l -> f x = false) -> filter f l = [].
Proof.
  induction l as [|a l IH]; cbn; intros H; [reflexivity|].
  rewrite (H a) by now left. apply IH. intros x Hx. apply H. now right.
Qed.

Lemma basic_grading_all_match (sa ca : list string) (qs : list QuizGrader.Question) :
  qs <> [] ->
  (forall i, (i < List.length qs)%nat ->
     QuizGrader.answers_match (nth i sa "") (nth i ca "") = true) ->
  let r := QuizGrader._create_basic_grading sa ca qs in
  QuizGrader.correct_answers r = List.length qs /\
  QuizGrader.score_percentage r = 100%Q /\ QuizGrader.grade r = "A".
Proof.
  intros Hqs H. cbv zeta.
  destruct (graded_score sa ca qs) as [Hs Hg]. rewrite Hs, Hg, graded_length.
  rewrite filter_all.
  2:{ intros x Hx. apply in_map_iff in Hx as (i & <- & Hi).
      apply in_seq in Hi. apply H. lia. }
  rewrite length_map, length_seq. split; [reflexivity|].
  unfold QuizGrader.raw_percentage. destruct qs as [|q qs]; [contradiction|].
  rewrite int_truediv_same by (cbn [List.length]; lia). split; vm_compute; reflexivity.
Qed.

Lemma basic_grading_none_match (sa ca : list string) (qs : list QuizGrader.Question) :
  qs <> [] ->
  (forall i, (i < List.length qs)%nat ->
     QuizGrader.answers_match (nth i sa "") (nth i ca "") = false) ->
  let r := QuizGrader._create_basic_grading sa ca qs in
  QuizGrader.correct_answers r = 0%nat /\
  QuizGrader.score_percentage r = 0%Q /\ QuizGrader.grade r = "F".
Proof.
  intros Hqs H. cbv zeta.
  destruct (graded_score sa ca qs) as [Hs Hg]. rewrite Hs, Hg, graded_length.
  rewrite filter_none.
  2:{ intros x Hx. apply in_map_iff in Hx as (i & <- & Hi).
      apply in_seq in Hi. apply H. lia. }
  cbn [List.length]. split; [reflexivity|].
  unfold QuizGrader.raw_percentage. destruct qs as [|q qs]; [contradiction|].
  change (Z.of_nat 0) with 0. rewrite int_truediv_zero. split; vm_compute; reflexivity.
Qed.

(** X2: When every answer matches its key the fallback grading gives 100 and
    an A; when none does it gives 0 and an F. *)
Theorem fallback_grading_extremes (sa ca : list string) (qs : list QuizGrader.Question) :
  qs <> [] ->
  let r := QuizGrader._create_basic_grading sa ca qs in
  ((forall i, (i < List.length qs)%nat ->
      QuizGrader.answers_match (nth i sa "") (nth i ca "") = true) ->
   QuizGrader.correct_answers r = List.length qs /\
   QuizGrader.score_percentage r = 100%Q /\ QuizGrader.grade r = "A") /\
  ((forall i, (i < List.length qs)%nat ->
      QuizGrader.answers_match (nth i sa "") (nth i ca "") = false) ->
   QuizGrader.correct_answers r = 0%nat /\
   QuizGrader.score_percentage r = 0%Q /\ QuizGrader.grade r = "F").
Proof.
  intros Hqs. cbv zeta. split; intros H.
  - now apply basic_grading_all_match.
  - now apply basic_grading_none_match.
Qed.

Lemma fallback_grading_extremes_witness :
  QuizGrader.score_percentage
    (QuizGrader._create_basic_grading [" a"; "TRUE "] ["A"; "true"]
       [QuizGrader.mkQuestion "q1" [] "A" ""; QuizGrader.mkQuestion "q2" [] "true" ""])
  = 100%Q.
Proof.
  assert (Hne : [QuizGrader.mkQuestion "q1" [] "A" "";
                 QuizGrader.mkQuestion "q2" [] "true" ""] <> []) by discriminate.
  destruct (fallback_grading_extremes [" a"; "TRUE "] ["A"; "true"] _ Hne) as [H _].
  apply H. intros [|[|i]] Hi; [reflexivity | reflexivity | cbn in Hi; lia].
Defined.

(** *** Trimming and case *)

Lemma is_space_lower_char (c : ascii) :
  PyStr.is_space (PyStr.lower_char c) = PyStr.is_space c.
Proof.
  destruct c as [[] [] [] [] [] [] [] []]; vm_compute; reflexivity.
Qed.

Lemma all_space_lower (s : string) : PyStr.all_space (PyStr.lower s) = PyStr.all_space s.
Proof.
  induction s as [|c s IH]; cbn; [reflexivity|]. now rewrite is_space_lower_char, IH.
Qed.

Lemma lstrip_lower (s : string) : PyStr.lstrip (PyStr.lower s) = PyStr.lower (PyStr.lstrip s).
Proof.
  induction s as [|c s IH]; cbn; [reflexivity|].
  rewrite is_space_lower_char. destruct (PyStr.is_space c); [exact IH | reflexivity].
Qed.

Lemma rstrip_lower (s : string) : PyStr.rstrip (PyStr.lower s) = PyStr.lower (PyStr.rstrip s).
Proof.
  induction s as [|c s IH]; [reflexivity|].
  cbn [PyStr.lower PyStr.rstrip].
  change (PyStr.all_space (String (PyStr.lower_char c) (PyStr.lower s)))
    with (PyStr.all_space (PyStr.lower (String c s))).
  rewrite (all_space_lower (String c s)).
  destruct (PyStr.all_space (String c s)); [reflexivity|].
  cbn [PyStr.lower]. now rewrite IH.
Qed.

(** Trimming and lower-casing commute. *)
Lemma strip_lower (s : string) : PyStr.strip (PyStr.lower s) = PyStr.lower (PyStr.strip s).
Proof. unfold PyStr.strip. now rewrite lstrip_lower, rstrip_lower. Qed.

Lemma all_space_app (a b : string) :
  PyStr.all_space (a ++ b) = PyStr.all_space a && PyStr.all_space b.
Proof.
  induction a as [|c a IH]; cbn; [reflexivity|]. now rewrite IH, andb_assoc.
Qed.

Lemma lstrip_all_space (w : string) : PyStr.all_space w = true -> PyStr.lstrip w = "".
Proof.
  induction w as [|c w IH]; cbn; [reflexivity|].
  intros H. apply andb_true_iff in H as [Hc Hw]. rewrite Hc. auto.
Qed.

Lemma lstrip_pad (w s : string) :
  PyStr.all_space w = true -> PyStr.lstrip (w ++ s) = PyStr.lstrip s.
Proof.
  induction w as [|c w IH]; cbn; [reflexivity|].
  intros H. apply andb_true_iff in H as [Hc Hw]. rewrite Hc. auto.
Qed.

Lemma lstrip_app (s w : string) :
  PyStr.all_space s = false -> PyStr.lstrip (s ++ w) = PyStr.lstrip s ++ w.
Proof.
  induction s as [|c s IH]; cbn; [discriminate|].
  destruct (PyStr.is_space c); cbn; [exact IH | reflexivity].
Qed.

Lemma rstrip_all_space (w : string) : PyStr.all_space w = true -> PyStr.rstrip w = "".
Proof. destruct w as [|c w]; [reflexivity|]. cbn [PyStr.rstrip]. now intros ->. Qed.

Lemma rstrip_pad (s w : string) :
  PyStr.all_space w = true -> PyStr.rstrip (s ++ w) = PyStr.rstrip s.
Proof.
  intros Hw. induction s as [|c s IH].
  - cbn. now apply rstrip_all_space.
  - cbn [String.append PyStr.rstrip].
    change (PyStr.all_space (String c (s ++ w))) with (PyStr.all_space (String c s ++ w)).
    rewrite all_space_app, Hw, andb_true_r.
    destruct (PyStr.all_space (String c s)); [reflexivity | now rewrite IH].
Qed.

(** Spaces around a text do not survive the trimming. *)
Lemma strip_pad (w1 w2 s : string) :
  PyStr.all_space w1 = true -> PyStr.all_space w2 = true ->
  PyStr.strip (w1 ++ s ++ w2) = PyStr.strip s.
Proof.
  intros H1 H2. unfold PyStr.strip. rewrite lstrip_pad by exact H1.
  destruct (PyStr.all_space s) eqn:Es.
  - rewrite (lstrip_all_space s Es), lstrip_all_space; [reflexivity|].
    now rewrite all_space_app, Es, H2.
  - rewrite lstrip_app by exact Es. now apply rstrip_pad.
Qed.

(** X3: An answer is graded the same whatever white space surrounds it and
    whatever the case of its letters: if [a'] is [a] with white space added
    in front and behind and letters changed in case, the comparison of [a']
    with any key gives what the comparison of [a] gives, on either side. *)
Theorem answer_matching_ignores_padding_and_case (a a' b w1 w2 : string) :
  PyStr.all_space w1 = true -> PyStr.all_space w2 = true ->
  PyStr.lower a' = PyStr.lower (w1 ++ a ++ w2) ->
  QuizGrader.answers_match a' b = QuizGrader.answers_match a b /\
  QuizGrader.answers_match b a' = QuizGrader.answers_match b a.
Proof.
  intros H1 H2 Hcase.
  assert (Hnorm : PyStr.lower (PyStr.strip a') = PyStr.lower (PyStr.strip a)).
  { rewrite <- !strip_lower, Hcase, !strip_lower, strip_pad by assumption. reflexivity. }
  unfold QuizGrader.answers_match. now rewrite Hnorm.
Qed.

Lemma answer_matching_ignores_padding_and_case_witness :
  QuizGrader.answers_match "  PARIS " "paris" = QuizGrader.answers_match "Paris" "paris".
Proof.
  apply (answer_matching_ignores_padding_and_case "Paris" "  PARIS " "paris" "  " " ");
    reflexivity.
Defined.

(** ** The video analysis without language model *)

Lemma inject_Z_le (a b : Z) : (inject_Z a <= inject_Z b)%Q <-> a <= b.
Proof. now rewrite <- Zle_Qle. Qed.

Lemma inject_Z_lt (a b : Z) : (inject_Z a < inject_Z b)%Q <-> a < b.
Proof. now rewrite <- Zlt_Qlt. Qed.

(** The letter grade of an integer score between 60 and 89. *)
Lemma letter_grade_middle (s : Z) :
  60 <= s < 90 ->
  VideoAnalyzer._calculate_letter_grade (inject_Z s) = "B" \/
  VideoAnalyzer._calculate_letter_grade (inject_Z s) = "C" \/
  VideoAnalyzer._calculate_letter_grade (inject_Z s) = "D".
Proof.
  intros [Hlo Hhi].
  change VideoAnalyzer._calculate_letter_grade with QuizGrader._calculate_letter_grade.
  destruct (letter_grade_cases (inject_Z s))
    as [[Hx ->]|[[Hx ->]|[[Hx ->]|[[Hx ->]|[Hx ->]]]]]; auto.
  - change 90%Q with (inject_Z 90) in Hx. apply (proj1 (inject_Z_le _ _)) in Hx. lia.
  - change 60%Q with (inject_Z 60) in Hx. apply (proj1 (inject_Z_lt _ _)) in Hx. lia.
Qed.

Lemma mock_analysis_score (jitter : Z) (transcript topic : string) :
  -5 <= jitter <= 10 ->
  let r := VideoAnalyzer._generate_mock_analysis jitter transcript topic in
  VideoAnalyzer.total_score r = VideoAnalyzer.base_score transcript + jitter /\
  60 <= VideoAnalyzer.total_score r <= 88.
Proof.
  intros Hj r.
  assert (Hbase : VideoAnalyzer.base_score transcript = 78 \/
                  VideoAnalyzer.base_score transcript = 72 \/
                  VideoAnalyzer.base_score transcript = 65).
  { destruct (base_score_cases transcript) as [[_ H]|[(_ & _ & H)|(_ & _ & H)]]; auto. }
  assert (Hs : VideoAnalyzer.total_score r = VideoAnalyzer.base_score transcript + jitter).
  { unfold r. cbn [VideoAnalyzer._generate_mock_analysis VideoAnalyzer.total_score]. lia. }
  split; [exact Hs | lia].
Qed.

(** X4: The mock analysis always scores between 60 and 88: the clamping to
    0..100 never changes the score, and the grade is B, C or D, never A and
    never F. *)
Theorem mock_analysis_grade_range (jitter : Z) (transcript topic : string) :
  -5 <= jitter <= 10 ->
  let r := VideoAnalyzer._generate_mock_analysis jitter transcript topic in
  VideoAnalyzer.total_score r = VideoAnalyzer.base_score transcript + jitter /\
  60 <= VideoAnalyzer.total_score r <= 88 /\
  (VideoAnalyzer.grade r = "B" \/ VideoAnalyzer.grade r = "C" \/
   VideoAnalyzer.grade r = "D").
Proof.
  intros Hj r. destruct (mock_analysis_score jitter transcript topic Hj) as [Hs Hrange].
  fold r in Hs, Hrange. split; [exact Hs|]. split; [exact Hrange|].
  change (VideoAnalyzer.grade r)
    with (VideoAnalyzer._calculate_letter_grade (inject_Z (VideoAnalyzer.total_score r))).
  apply letter_grade_middle. lia.
Qed.

Lemma mock_analysis_grade_range_witness :
  VideoAnalyzer.total_score (VideoAnalyzer._generate_mock_analysis (-5) "" "AI") = 60.
Proof.
  destruct (mock_analysis_grade_range (-5) "" "AI") as (H & _); [lia|].
  rewrite H. reflexivity.
Defined.

(** *** The length-based analysis *)


Lemma of_Z_nonneg (k : Z) : 0 <= k -> (0 <= of_Z k)%Q.
Proof.
  intros Hk. apply rnd_nonneg. change 0%Q with (inject_Z 0). now apply inject_Z_le.
Qed.

Lemma lit_6_10_bounds : (0 < lit 6 10)%Q /\ (lit 6 10 * 100 <= 60)%Q /\ (lit 6 10 * 66 <= 40)%Q.
Proof. repeat split; vm_compute; reflexivity || discriminate. Qed.

Lemma lit_2_10_bounds : (0 < lit 2 10)%Q /\ (25 <= lit 2 10 * 125)%Q.
Proof. repeat split; vm_compute; reflexivity || discriminate. Qed.

Lemma of_Z_60 : of_Z 60 = 60%Q.
Proof. vm_compute. reflexivity. Qed.

Lemma basic_score_short (wc : nat) :
  (wc <= 100)%nat ->
  (40 <= TranscriptAnalysis.basic_score wc <= 60)%Q /\
  ((wc <= 66)%nat -> TranscriptAnalysis.basic_score wc = 40%Q).
Proof.
  intros Hwc. unfold TranscriptAnalysis.basic_score.
  destruct (Nat.ltb_spec 100 wc) as [H|_]; [lia|].
  destruct lit_6_10_bounds as (Hw0 & Hw100 & Hw66).
  pose proof (of_Z_nonneg (Z.of_nat wc) ltac:(lia)) as Hn0.
  assert (Hn100 : (of_Z (Z.of_nat wc) <= 100)%Q).
  { apply (rnd_le_int _ 100); [lia|]. apply inject_Z_le. lia. }
  assert (Hy : (fmul (of_Z (Z.of_nat wc)) (lit 6 10) <= 60)%Q).
  { apply (rnd_le_int _ 60); [lia|]. change (inject_Z 60) with 60%Q. nra. }
  unfold TranscriptAnalysis.py_max. split.
  - destruct (gtb _ _) eqn:E.
    + apply gtb_true in E. split; [lra | exact Hy].
    + split; [apply Qle_refl | discriminate].
  - intros H66.
    assert (Hn66 : (of_Z (Z.of_nat wc) <= 66)%Q).
    { apply (rnd_le_int _ 66); [lia|]. apply inject_Z_le. lia. }
    assert (Hy40 : (fmul (of_Z (Z.of_nat wc)) (lit 6 10) <= 40)%Q).
    { apply (rnd_le_int _ 40); [lia|]. change (inject_Z 40) with 40%Q. nra. }
    destruct (gtb _ _) eqn:E; [|reflexivity].
    apply gtb_true in E. lra.
Qed.

Lemma basic_score_long (wc : nat) :
  (100 < wc)%nat ->
  (60 <= TranscriptAnalysis.basic_score wc <= 85)%Q /\
  ((225 <= wc)%nat -> TranscriptAnalysis.basic_score wc = 85%Q).
Proof.
  intros Hwc. unfold TranscriptAnalysis.basic_score.
  destruct (Nat.ltb_spec 100 wc) as [_|H]; [|lia].
  destruct lit_2_10_bounds as (Hw0 & Hw125).
  set (k := Z.of_nat wc - 100).
  pose proof (of_Z_nonneg k ltac:(lia)) as Hk0.
  assert (Ht0 : (0 <= fmul (of_Z k) (lit 2 10))%Q) by (apply rnd_nonneg; nra).
  assert (Hz : (60 <= fadd (of_Z 60) (fmul (of_Z k) (lit 2 10)))%Q).
  { rewrite of_Z_60. apply (rnd_ge_int _ 60); [lia|]. change (inject_Z 60) with 60%Q. lra. }
  unfold TranscriptAnalysis.py_min. split.
  - destruct (gtb _ _) eqn:E.
    + apply gtb_true in E. split; [exact Hz | lra].
    + split; discriminate.
  - intros H225.
    assert (Hk125 : (125 <= of_Z k)%Q).
    { apply (rnd_ge_int _ 125); [lia|]. apply inject_Z_le. lia. }
    assert (Ht25 : (25 <= fmul (of_Z k) (lit 2 10))%Q).
    { apply (rnd_ge_int _ 25); [lia|]. change (inject_Z 25) with 25%Q. nra. }
    assert (Hz85 : (85 <= fadd (of_Z 60) (fmul (of_Z k) (lit 2 10)))%Q).
    { rewrite of_Z_60. apply (rnd_ge_int _ 85); [lia|]. change (inject_Z 85) with 85%Q. lra. }
    destruct (gtb _ _) eqn:E; [|reflexivity].
    apply gtb_true in E. lra.
Qed.

(** X5: The length-based analysis scores between 40 and 85 whatever the text,
    so that its grade is never an A; a text of at most 66 words gets exactly
    40 and an F, a text of 225 words or more exactly 85 and a B. *)
Theorem basic_analysis_score_range (result : string) :
  let r := TranscriptAnalysis._create_basic_analysis result in
  let wc := PyStr.word_count result in
  (40 <= TranscriptAnalysis.total_score r <= 85)%Q /\
  (40 <= TranscriptAnalysis.score_percentage r <= 85)%Q /\
  TranscriptAnalysis.basic_grade r <> "A" /\
  ((wc <= 66)%nat ->
     TranscriptAnalysis.total_score r = 40%Q /\ TranscriptAnalysis.basic_grade r = "F") /\
  ((225 <= wc)%nat ->
     TranscriptAnalysis.total_score r = 85%Q /\ TranscriptAnalysis.basic_grade r = "B").
Proof.
  cbv zeta.
  cbn [TranscriptAnalysis._create_basic_analysis TranscriptAnalysis.total_score
       TranscriptAnalysis.score_percentage TranscriptAnalysis.basic_grade].
  set (wc := PyStr.word_count result).
  assert (Hrange : (40 <= TranscriptAnalysis.basic_score wc <= 85)%Q).
  { destruct (Nat.le_gt_cases wc 100) as [H|H].
    - destruct (basic_score_short wc H) as [[H1 H2] _]. split; lra.
    - destruct (basic_score_long wc H) as [[H1 H2] _]. split; lra. }
  split; [exact Hrange|]. split.
  { split.
    - apply (round2_ge_int _ 40); [lia | apply Hrange].
    - apply (round2_le_int _ 85); [lia | apply Hrange]. }
  split.
  { change VideoAnalyzer._calculate_letter_grade with QuizGrader._calculate_letter_grade.
    destruct (letter_grade_cases (TranscriptAnalysis.basic_score wc))
      as [[Hx ->]|[[Hx ->]|[[Hx ->]|[[Hx ->]|[Hx ->]]]]]; try discriminate.
    exfalso. lra. }
  split.
  - intros H66. destruct (basic_score_short wc ltac:(lia)) as [_ H].
    rewrite (H H66). split; reflexivity.
  - intros H225. destruct (basic_score_long wc ltac:(lia)) as [_ H].
    rewrite (H H225). split; reflexivity.
Qed.

(** *** The analysis of a video *)

Lemma mock_transcripts_usable (draw : TranscriptAnalysis.Draw) (link : string) :
  let text := TranscriptAnalysis.extract_transcript_from_video draw link in
  PyStr.contains "Error:" text = false /\
  (VideoAnalyzer.base_score text = 78 \/ VideoAnalyzer.base_score text = 72).
Proof. destruct draw; split; vm_compute; auto. Qed.

Lemma valid_probe_irrelevant (probe probe' : string -> option nat) (link : string) :
  VideoAnalyzer.valid (VideoAnalyzer.validate_google_drive_link probe link)
  = VideoAnalyzer.valid (VideoAnalyzer.validate_google_drive_link probe' link).
Proof.
  unfold VideoAnalyzer.validate_google_drive_link.
  destruct (VideoAnalyzer.first_match _ _); reflexivity.
Qed.

Lemma content_analysis_success (probe : string -> option nat)
    (draw : TranscriptAnalysis.Draw) (jitter : Z) (student_id link topic : string) :
  TranscriptAnalysis.success
    (TranscriptAnalysis.analyze_video_content probe draw jitter student_id link topic)
  = VideoAnalyzer.valid (VideoAnalyzer.validate_google_drive_link probe link).
Proof.
  unfold TranscriptAnalysis.analyze_video_content.
  destruct (VideoAnalyzer.valid (VideoAnalyzer.validate_google_drive_link probe link));
    cbn [negb]; [|reflexivity].
  destruct (mock_transcripts_usable draw link) as [Herr _]. cbv zeta in Herr.
  now rewrite Herr.
Qed.

Lemma content_analysis_scored (probe : string -> option nat)
    (draw : TranscriptAnalysis.Draw) (jitter : Z) (student_id link topic : string) :
  -5 <= jitter <= 10 ->
  let r := TranscriptAnalysis.analyze_video_content probe draw jitter student_id link topic in
  TranscriptAnalysis.success r = true ->
  67 <= TranscriptAnalysis.score r <= 88 /\
  (TranscriptAnalysis.grade r = "B" \/ TranscriptAnalysis.grade r = "C" \/
   TranscriptAnalysis.grade r = "D") /\
  TranscriptAnalysis.video_link r = Some link.
Proof.
  intros Hj. cbv zeta. unfold TranscriptAnalysis.analyze_video_content.
  destruct (VideoAnalyzer.valid (VideoAnalyzer.validate_google_drive_link probe link));
    cbn [negb]; [|discriminate].
  destruct (mock_transcripts_usable draw link) as [Herr Hbase]. cbv zeta in Herr, Hbase.
  rewrite Herr. cbn [TranscriptAnalysis.success TranscriptAnalysis.score
                     TranscriptAnalysis.grade TranscriptAnalysis.video_link].
  intros _. unfold TranscriptAnalysis._analyze_transcript.
  destruct (mock_analysis_score jitter
              (TranscriptAnalysis.extract_transcript_from_video draw link) topic Hj)
    as (Hs & Hrange).
  pose proof (letter_grade_middle
                (VideoAnalyzer.total_score
                   (VideoAnalyzer._generate_mock_analysis jitter
                      (TranscriptAnalysis.extract_transcript_from_video draw link) topic)))
    as Hg.
  specialize (Hg ltac:(lia)).
  change (VideoAnalyzer.score_percentage
            (VideoAnalyzer._generate_mock_analysis jitter
               (TranscriptAnalysis.extract_transcript_from_video draw link) topic))
    with (VideoAnalyzer.total_score
            (VideoAnalyzer._generate_mock_analysis jitter
               (TranscriptAnalysis.extract_transcript_from_video draw link) topic)).
  split; [rewrite Hs; lia|]. split; [exact Hg | reflexivity].
Qed.

(** X6: Without language model, the analysis of a video succeeds exactly when
    its link is accepted by the link validation, whatever the reachability
    request says; a successful analysis scores between 67 and 88 with grade
    B, C or D, and a failed one reports score 0 and grade F. *)
Theorem content_analysis_outcome (probe : string -> option nat)
    (draw : TranscriptAnalysis.Draw) (jitter : Z) (student_id link topic : string) :
  -5 <= jitter <= 10 ->
  let r := TranscriptAnalysis.analyze_video_content probe draw jitter student_id link topic in
  TranscriptAnalysis.success r
  = VideoAnalyzer.valid (VideoAnalyzer.validate_google_drive_link (fun _ => None) link) /\
  (TranscriptAnalysis.success r = true ->
     67 <= TranscriptAnalysis.score r <= 88 /\
     (TranscriptAnalysis.grade r = "B" \/ TranscriptAnalysis.grade r = "C" \/
      TranscriptAnalysis.grade r = "D") /\
     TranscriptAnalysis.video_link r = Some link) /\
  (TranscriptAnalysis.success r = false ->
     TranscriptAnalysis.score r = 0 /\ TranscriptAnalysis.grade r = "F" /\
     TranscriptAnalysis.analysis r = None).
Proof.
  intros Hj. cbv zeta. split; [|split].
  - rewrite content_analysis_success. apply valid_probe_irrelevant.
  - apply (content_analysis_scored probe draw jitter student_id link topic Hj).
  - rewrite content_analysis_success.
    unfold TranscriptAnalysis.analyze_video_content.
    destruct (VideoAnalyzer.valid (VideoAnalyzer.validate_google_drive_link probe link));
      cbn [negb]; [discriminate|]. intros _. repeat split.
Qed.

Lemma content_analysis_outcome_witness :
  TranscriptAnalysis.success
    (TranscriptAnalysis.analyze_video_content (fun _ => Some 404%nat)
       TranscriptAnalysis.Third 0 "alice"
       "https://drive.google.com/file/d/ABC123/view" "AI") = true.
Proof.
  destruct (content_analysis_outcome (fun _ => Some 404%nat) TranscriptAnalysis.Third 0
              "alice" "https://drive.google.com/file/d/ABC123/view" "AI")
    as (H & _); [lia|].
  rewrite H. reflexivity.
Defined.

(** ** The record store and the analysis of a submitted video *)

Section DictMore.
Context {V : Type}.
Implicit Types (d : Dict.dict V) (k : string) (v : V).








End DictMore.

(** *** Changing the status of a quiz result *)




(** *** Adding and reading quiz results *)



(** *** The analysis of a submitted video *)

Lemma is_video_of_apply_analysis (sid : string) (data : LocalStorage.AnalysisData)
    (v : Store.VideoSubmission) :
  Store.is_video_of sid (LocalStorage.apply_analysis data v) = Store.is_video_of sid v.
Proof. reflexivity. Qed.






(** *** From the submission of a video to the combined result *)






(** *** What the release leaves in the store *)





(** *** The video fields and the final grade of a combined result *)

Lemma final_grade_letter (score : Q) :
  let g := VideoUtils._calculate_final_grade score in
  g = "A" \/ g = "B" \/ g = "C" \/ g = "D" \/ g = "F".
Proof.
  cbv zeta. unfold VideoUtils._calculate_final_grade.
  destruct (geb score 90); [auto|]. destruct (geb score 80); [auto|].
  destruct (geb score 70); [auto|]. destruct (geb score 60); auto.
Qed.

(** [geb] keeps holding after the rounding to two decimals. *)
Lemma geb_round2 (x : Q) (n : Z) :
  0 < n < 2 ^ 46 -> geb x (inject_Z n) = true -> geb (round2 x) (inject_Z n) = true.
Proof.
  intros Hn H. apply geb_true. apply round2_ge_int; [exact Hn|]. now apply geb_true.
Qed.

Lemma final_grade_round2 (x : Q) :
  (Spec.grade_rank (VideoUtils._calculate_final_grade x)
   <= Spec.grade_rank (VideoUtils._calculate_final_grade (round2 x)))%nat.
Proof.
  unfold VideoUtils._calculate_final_grade.
  assert (H90 := geb_round2 x 90 ltac:(lia)).
  assert (H80 := geb_round2 x 80 ltac:(lia)).
  assert (H70 := geb_round2 x 70 ltac:(lia)).
  assert (H60 := geb_round2 x 60 ltac:(lia)).
  change (inject_Z 90) with 90%Q in H90. change (inject_Z 80) with 80%Q in H80.
  change (inject_Z 70) with 70%Q in H70. change (inject_Z 60) with 60%Q in H60.
  destruct (geb x 90); [rewrite H90 by reflexivity; cbn; lia|].
  destruct (geb x 80);
    [rewrite H80 by reflexivity; destruct (geb (round2 x) 90); cbn; lia|].
  destruct (geb x 70);
    [rewrite H70 by reflexivity;
     destruct (geb (round2 x) 90), (geb (round2 x) 80); cbn; lia|].
  destruct (geb x 60);
    [rewrite H60 by reflexivity;
     destruct (geb (round2 x) 90), (geb (round2 x) 80), (geb (round2 x) 70); cbn; lia|].
  cbn. lia.
Qed.

(** X11: The video fields of a combined result.  Without a video submission of
    the student they are the placeholders of the seed: score 0, grade
    "Not Submitted", feedback "No video submission" and no link.  With
    video submissions they are read from the last one of the student in
    iteration order, and a video that has not been analysed counts with
    score 0, grade "Pending" and empty feedback.  Every entry is marked as
    having a quiz, and its final grade is one of the five letters. *)
Theorem combined_video_fields (w : VideoUtils.World) :
  let vs := Store.get_all_videos (VideoUtils.store w) in
  let out := fst (VideoUtils.calculate_combined_results w) in
  forall c, In c out ->
    VideoUtils.quiz_submitted c = true /\
    (VideoUtils.video_submitted c = false ->
       Spec.last_video (VideoUtils.student_id c) vs = None /\
       VideoUtils.video_score c = 0%Q /\
       VideoUtils.video_grade c = "Not Submitted" /\
       VideoUtils.video_feedback c = "No video submission" /\
       VideoUtils.video_link c = None) /\
    (VideoUtils.video_submitted c = true ->
       exists v, Spec.last_video (VideoUtils.student_id c) vs = Some v /\
         VideoUtils.video_score c = Store.with_default 0%Q (Store.vs_video_score v) /\
         VideoUtils.video_grade c = Store.with_default "Pending" (Store.vs_video_grade v) /\
         VideoUtils.video_feedback c = Store.with_default "" (Store.vs_video_feedback v) /\
         VideoUtils.video_link c = Some (Store.with_default "" (Store.vs_video_link v))) /\
    (VideoUtils.final_grade c = "A" \/ VideoUtils.final_grade c = "B" \/
     VideoUtils.final_grade c = "C" \/ VideoUtils.final_grade c = "D" \/
     VideoUtils.final_grade c = "F").
Proof.
  intros vs out c Hc.
  change out with (VideoUtils.combine (Store.get_all_results (VideoUtils.store w)) vs) in Hc.
  apply combine_in in Hc as (sid & q & Hne & Hq & ->).
  rewrite student_id_entry_of. unfold entry_of, with_last_video.
  destruct (Spec.last_video sid vs) as [v|] eqn:Ev.
  - split; [reflexivity|]. split; [discriminate|]. split.
    + intros _. exists v. repeat split.
    + apply final_grade_letter.
  - split; [reflexivity|]. split.
    + intros _. repeat split.
    + split; [discriminate | apply final_grade_letter].
Qed.

Lemma combined_video_fields_witness :
  let q := Store.mkQuizResult (Some "bob") None (Some 80%Q) (Some "B") None None in
  let v := Store.mkVideoSubmission (Some "bob") (Some "link") None None (Some "submitted")
             None None None None None in
  let w := {| VideoUtils.store :=
                {| Store.results := [("r1", q)]; Store.videos := [("v1", v)];
                   Store.final_results := [] |};
              VideoUtils.log := [] |} in
  let c := VideoUtils.finalize (VideoUtils.merge_video v (VideoUtils.seed_entry "bob" q)) in
  In c (fst (VideoUtils.calculate_combined_results w)) /\
  VideoUtils.video_grade c = "Pending" /\
  VideoUtils.video_score c = 0%Q.
Proof.
  intros q v w c.
  assert (Hin : In c (fst (VideoUtils.calculate_combined_results w)))
    by (left; reflexivity).
  destruct (combined_video_fields w c Hin) as (_ & _ & H & _).
  split; [exact Hin|]. destruct (H eq_refl) as (v' & Hv & Hs & Hg & _).
  split; [rewrite Hg | rewrite Hs]; injection Hv as <-; reflexivity.
Defined.

(** X12: The final grade of a combined result is the grade of the total before
    it is rounded to two decimals.  The grade that belongs to the rounded
    total, the one the entry shows, is never lower; it can be higher: quiz
    score 91.33 and video score 88 give the total 90.0 with final grade B. *)
Theorem final_grade_of_unrounded_total (w : VideoUtils.World) :
  let out := fst (VideoUtils.calculate_combined_results w) in
  (forall c, In c out ->
     (Spec.grade_rank (VideoUtils.final_grade c)
      <= Spec.grade_rank (VideoUtils._calculate_final_grade (VideoUtils.total_score c)))%nat) /\
  (let q := Store.mkQuizResult (Some "bob") None (Some (lit 9133 100)) (Some "A") None None in
   let v := Store.mkVideoSubmission (Some "bob") (Some "link") None None (Some "analyzed")
              None None (Some 88%Q) (Some "B") None in
   map (fun c => (VideoUtils.total_score c, VideoUtils.final_grade c,
                  VideoUtils._calculate_final_grade (VideoUtils.total_score c)))
     (VideoUtils.combine [q] [v])
   = [(90%Q, "B", "A")]).
Proof.
  cbv zeta. split; [|vm_compute; reflexivity].
  intros c Hc.
  change (fst (VideoUtils.calculate_combined_results w))
    with (VideoUtils.combine (Store.get_all_results (VideoUtils.store w))
            (Store.get_all_videos (VideoUtils.store w))) in Hc.
  apply combine_in in Hc as (sid & q & _ & _ & ->).
  unfold entry_of. cbn [VideoUtils.finalize VideoUtils.final_grade VideoUtils.total_score].
  apply final_grade_round2.
Qed.

(** *** Who is selected *)






(** *** The link that the validation hands back *)

Lemma search_here (m : string -> option string) (s g : string) :
  m s = Some g -> VideoAnalyzer.search m s = Some g.
Proof. intros H. destruct s; cbn; now rewrite H. Qed.

Lemma matches_at_id (k : nat) (s id : string) :
  Spec.matches_at k s id ->
  id <> "" /\ Spec.forall_chars VideoAnalyzer.is_id_char id = true.
Proof.
  destruct k as [|[|[|k]]]; cbn [Spec.matches_at].
  - intros (rest & _ & Hne & Hall & _). auto.
  - intros (rest & _ & Hne & Hall & _). auto.
  - intros (mid & tail & _ & _ & (rest & _ & Hne & Hall & _) & _). auto.
  - intros [].
Qed.

(** X7: The identifier that the validation extracts is never empty and
    consists of letters, digits, [_] and [-]; the direct link it returns is
    the file link of that identifier; and this direct link is itself
    accepted by the validation, with the same identifier and the same
    direct link: validating a second time changes nothing. *)
Theorem direct_link_round_trip (probe probe' : string -> option nat) (link id : string) :
  VideoAnalyzer.file_id (VideoAnalyzer.validate_google_drive_link probe link) = Some id ->
  let direct := "https://drive.google.com/file/d/" ++ id ++ "/view" in
  let v' := VideoAnalyzer.validate_google_drive_link probe' direct in
  id <> "" /\
  Spec.forall_chars VideoAnalyzer.is_id_char id = true /\
  VideoAnalyzer.direct_link (VideoAnalyzer.validate_google_drive_link probe link)
  = Some direct /\
  VideoAnalyzer.valid v' = true /\
  VideoAnalyzer.file_id v' = Some id /\
  VideoAnalyzer.direct_link v' = Some direct.
Proof.
  intros Hid. cbv zeta.
  assert (E : VideoAnalyzer.first_match VideoAnalyzer.drive_patterns link = Some id).
  { unfold VideoAnalyzer.validate_google_drive_link in Hid.
    destruct (VideoAnalyzer.first_match VideoAnalyzer.drive_patterns link);
      cbn [VideoAnalyzer.file_id] in Hid; [exact Hid | discriminate]. }
  assert (Hd : VideoAnalyzer.direct_link
                 (VideoAnalyzer.validate_google_drive_link probe link)
               = Some ("https://drive.google.com/file/d/" ++ id ++ "/view")).
  { unfold VideoAnalyzer.validate_google_drive_link. now rewrite E. }
  apply first_match_some in E as (k & pre & s & _ & Hm & _).
  apply matches_at_id in Hm as [Hne Hall].
  split; [exact Hne|]. split; [exact Hall|]. split; [exact Hd|].
  assert (Hre : VideoAnalyzer.first_match VideoAnalyzer.drive_patterns
                  ("https://drive.google.com/file/d/" ++ id ++ "/view") = Some id).
  { cbn [VideoAnalyzer.first_match VideoAnalyzer.drive_patterns].
    rewrite (search_here VideoAnalyzer.pattern_file _ id); [reflexivity|].
    unfold VideoAnalyzer.pattern_file. apply match_literal_id_some.
    exists "/view". repeat split; auto. }
  unfold VideoAnalyzer.validate_google_drive_link. rewrite Hre. repeat split.
Qed.

Lemma direct_link_round_trip_witness :
  VideoAnalyzer.file_id
    (VideoAnalyzer.validate_google_drive_link (fun _ => None)
       "https://drive.google.com/file/d/ABC123/view") = Some "ABC123".
Proof.
  destruct (direct_link_round_trip (fun _ => Some 200%nat) (fun _ => None)
              "see https://drive.google.com/open?id=ABC123&usp=sharing" "ABC123")
    as (_ & _ & _ & _ & H & _).
  - vm_compute. reflexivity.
  - exact H.
Defined.

(** ** Registration and login *)

Lemma find_pair_set {V : Type} (f : V -> bool) (k : string) (v : V) (d : Dict.dict V) :
  find (fun kv => f (snd kv)) d = None -> f v = true ->
  find (fun kv => f (snd kv)) (Dict.set k v d) = Some (k, v).
Proof.
  intros Hn Hv. induction d as [|[k' v'] d IH]; cbn in *.
  - now rewrite Hv.
  - destruct (f v') eqn:E; [discriminate|].
    destruct (String.eqb k k'); cbn; [now rewrite Hv | rewrite E; now apply IH].
Qed.


(** What a successful registration has done. *)
Lemma register_student_success (B : Auth.Bcrypt) (salt now : string)
    (io : Store.write_outcome) (name email pw : string)
    (students : Dict.dict Auth.Student) :
  let r := Auth.register_student B salt now io name email pw students in
  Auth.reg_success (fst r) = true ->
  exists u h,
    io = Some u /\ Auth.hashpw B pw salt = inl h /\
    Auth.get_student_by_email email students = None /\
    Auth.reg_student_id (fst r) = Some (Store.uuid_str u) /\
    snd r = Dict.set (Store.uuid_str u)
              (Auth.mkStudent (Some name) (Some email) (Some h) (Some now) (Some "active"))
              students.
Proof.
  cbv zeta. unfold Auth.register_student.
  destruct (Auth.get_student_by_email email students) eqn:Eg; [discriminate|].
  destruct (Auth.hashpw B pw salt) as [h|e]; [|discriminate].
  destruct io as [u|]; cbn; [|discriminate].
  intros _. exists u, h. repeat split.
Qed.


(** X18: A student who has registered successfully can log in: with the email
    address and password of the registration, the login succeeds and names
    the identifier that the registration returned, the name and the email
    address.  A password that [bcrypt] does not accept for the stored hash
    is answered with "Invalid password", an email address that no student
    has with "Student not found", and a further registration with the same
    email address is refused. *)
Theorem registered_student_can_log_in (B : Auth.Bcrypt) (salt now : string)
    (io : Store.write_outcome) (name email pw : string)
    (students : Dict.dict Auth.Student) :
  Auth.sound B ->
  let r := Auth.register_student B salt now io name email pw students in
  Auth.reg_success (fst r) = true ->
  (exists id,
     Auth.reg_student_id (fst r) = Some id /\
     Auth.login_student B email pw (snd r)
     = {| Auth.login_success := true;
          Auth.login_message := "Login successful";
          Auth.student := Some {| Auth.user_id := id; Auth.user_name := Some name;
                                  Auth.user_email := Some email |} |}) /\
  (forall pw' h, Auth.hashpw B pw salt = inl h -> Auth.checkpw B pw' h = inl false ->
     Auth.login_student B email pw' (snd r)
     = {| Auth.login_success := false; Auth.login_message := "Invalid password";
          Auth.student := None |}) /\
  (forall email' pw',
     Auth.get_student_by_email email' (snd r) = None ->
     Auth.login_student B email' pw' (snd r)
     = {| Auth.login_success := false; Auth.login_message := "Student not found";
          Auth.student := None |}) /\
  (forall B' salt' now' io' name' pw',
     Auth.reg_success
       (fst (Auth.register_student B' salt' now' io' name' email pw' (snd r))) = false).
Proof.
  intros HB. cbv zeta. intros Es.
  destruct (register_student_success B salt now io name email pw students Es)
    as (u & h & _ & Hh & Eg & Hid & ->).
  set (st := Auth.mkStudent (Some name) (Some email) (Some h) (Some now) (Some "active")).
  assert (Hfind : Auth.get_student_by_email email (Dict.set (Store.uuid_str u) st students)
                  = Some (Store.uuid_str u, st)).
  { unfold Auth.get_student_by_email in *. apply find_pair_set; [exact Eg|].
    unfold Auth.has_email. cbn. apply String.eqb_refl. }
  split; [|split; [|split]].
  - exists (Store.uuid_str u). split; [exact Hid|].
    unfold Auth.login_student. rewrite Hfind.
    change (Store.with_default "" (Auth.password st)) with h.
    now rewrite (HB pw salt h Hh).
  - intros pw' h' Hh' Hc. rewrite Hh in Hh'. injection Hh' as <-.
    unfold Auth.login_student. rewrite Hfind.
    change (Store.with_default "" (Auth.password st)) with h. now rewrite Hc.
  - intros email' pw' Hn. unfold Auth.login_student. now rewrite Hn.
  - intros B' salt' now' io' name' pw'. unfold Auth.register_student.
    now rewrite Hfind.
Qed.

Lemma registered_student_can_log_in_witness :
  let r := Auth.register_student toy_bcrypt "salt" "2024-01-01" (Some (Store.mkUuid "s" "1"))
             "Alice" "alice@example.com" "secret" [] in
  Auth.login_success (Auth.login_student toy_bcrypt "alice@example.com" "secret" (snd r))
  = true /\
  Auth.login_message (Auth.login_student toy_bcrypt "alice@example.com" "wrong" (snd r))
  = "Invalid password".
Proof.
  cbv zeta.
  destruct (registered_student_can_log_in toy_bcrypt "salt" "2024-01-01"
              (Some (Store.mkUuid "s" "1")) "Alice" "alice@example.com" "secret" [])
    as ((id & _ & Hlogin) & Hwrong & _).
  - intros pw salt h [= <-]. cbn. now rewrite String.eqb_refl.
  - reflexivity.
  - split.
    + rewrite Hlogin. reflexivity.
    + rewrite (Hwrong "wrong" (String "$" "secret")); reflexivity.
Defined.

(** ** Quiz generation without language model *)

Lemma range_length (n : Z) : List.length (QuizGenerator.range n) = Z.to_nat n.
Proof. unfold QuizGenerator.range. now rewrite length_map, length_seq. Qed.

Lemma mock_question_number (topic difficulty qt : string) (i : Z) :
  QuizGenerator.question_number (QuizGenerator.mock_question topic difficulty qt i) = i + 1.
Proof.
  unfold QuizGenerator.mock_question.
  destruct (String.eqb qt "MCQ"); [reflexivity|].
  destruct (String.eqb qt "True/False"); reflexivity.
Qed.

(** X19: The mock quiz has one question for each number from 1 to
    [num_questions], in this order; a multiple-choice question has four
    options, the first one lettered A, and the key "A"; a true/false
    question has the options True and False and the key "True"; any other
    type gives a question without options.  ["total_questions"] repeats
    [num_questions], also when it is negative and the quiz has no question. *)
Theorem mock_quiz_shape (topic : string) (num_questions : Z)
    (difficulty question_type : string) :
  let quiz := QuizGenerator._generate_mock_quiz topic num_questions difficulty
                question_type in
  List.length (QuizGenerator.questions quiz) = Z.to_nat num_questions /\
  map QuizGenerator.question_number (QuizGenerator.questions quiz)
  = one_to (Z.to_nat num_questions) /\
  QuizGenerator.total_questions quiz = num_questions /\
  (forall q, In q (QuizGenerator.questions quiz) ->
     (question_type = "MCQ" ->
        QuizGenerator.correct_answer q = "A" /\
        List.length (QuizGenerator.options q) = 4%nat /\
        PyStr.starts_with "A)" (nth 0 (QuizGenerator.options q) "") = true) /\
     (question_type = "True/False" ->
        QuizGenerator.correct_answer q = "True" /\
        QuizGenerator.options q = ["True"; "False"]) /\
     (question_type <> "MCQ" -> question_type <> "True/False" ->
        QuizGenerator.options q = [] /\
        QuizGenerator.correct_answer q
        = "Sample answer for question "
          ++ QuizGenerator.str_of_int (QuizGenerator.question_number q))) /\
  (num_questions < 0 ->
     QuizGenerator.questions quiz = [] /\ QuizGenerator.total_questions quiz < 0).
Proof.
  cbv zeta. cbn [QuizGenerator._generate_mock_quiz QuizGenerator.questions
                 QuizGenerator.total_questions].
  split; [now rewrite length_map, range_length|].
  split.
  { unfold QuizGenerator.range, one_to. rewrite !map_map. apply map_ext.
    intros k. apply mock_question_number. }
  split; [reflexivity|]. split.
  - intros q Hq. apply in_map_iff in Hq as (i & <- & _).
    unfold QuizGenerator.mock_question.
    destruct (String.eqb_spec question_type "MCQ") as [->|Hm].
    + split; [intros _; repeat split|]. split; [discriminate | congruence].
    + destruct (String.eqb_spec question_type "True/False") as [->|Ht].
      * split; [congruence|]. split; [intros _; split; reflexivity | congruence].
      * split; [congruence|]. split; [congruence|]. intros _ _. split; reflexivity.
  - intros Hn. split; [|exact Hn].
    unfold QuizGenerator.range. now destruct num_questions.
Qed.

(** X20: Graded without language model, a mock multiple-choice or true/false
    quiz gives 100 and an A to the student who picks the first option of
    every question, whatever the padding and case of the answers, and 0
    and an F to the student who never picks it. *)
Theorem mock_quiz_first_option_is_key (topic : string) (num_questions : Z)
    (difficulty question_type first : string) (answers : list string) :
  0 < num_questions ->
  (question_type = "MCQ" /\ first = "A") \/
  (question_type = "True/False" /\ first = "True") ->
  let quiz := QuizGenerator._generate_mock_quiz topic num_questions difficulty
                question_type in
  let correct_answers := map QuizGenerator.correct_answer (QuizGenerator.questions quiz) in
  let r := QuizGrader._generate_mock_grading answers correct_answers
             (map as_graded (QuizGenerator.questions quiz)) question_type in
  QuizGrader.total_questions r = Z.to_nat num_questions /\
  ((forall i, (i < Z.to_nat num_questions)%nat ->
      QuizGrader.answers_match (nth i answers "") first = true) ->
   QuizGrader.score_percentage r = 100%Q /\ QuizGrader.grade r = "A") /\
  ((forall i, (i < Z.to_nat num_questions)%nat ->
      QuizGrader.answers_match (nth i answers "") first = false) ->
   QuizGrader.score_percentage r = 0%Q /\ QuizGrader.grade r = "F").
Proof.
  intros Hn Ht. cbv zeta. unfold QuizGrader._generate_mock_grading.
  set (qs := QuizGenerator.questions
               (QuizGenerator._generate_mock_quiz topic num_questions difficulty
                  question_type)).
  assert (Hlen : List.length (map as_graded qs) = Z.to_nat num_questions).
  { rewrite length_map. unfold qs. cbn [QuizGenerator._generate_mock_quiz
                                         QuizGenerator.questions].
    now rewrite length_map, range_length. }
  assert (Hne : map as_graded qs <> []).
  { intros H. rewrite H in Hlen. cbn in Hlen. lia. }
  assert (Hkey : forall i, (i < Z.to_nat num_questions)%nat ->
                   nth i (map QuizGenerator.correct_answer qs) "" = first).
  { intros i Hi. unfold qs. cbn [QuizGenerator._generate_mock_quiz QuizGenerator.questions].
    rewrite map_map.
    rewrite (nth_indep _ ""
               (QuizGenerator.correct_answer
                  (QuizGenerator.mock_question topic difficulty question_type 0)))
      by now rewrite length_map, range_length.
    rewrite (map_nth (fun x => QuizGenerator.correct_answer
                                 (QuizGenerator.mock_question topic difficulty
                                    question_type x))).
    unfold QuizGenerator.mock_question.
    destruct Ht as [[-> ->]|[-> ->]]; reflexivity. }
  split.
  { unfold QuizGrader._create_basic_grading. rewrite grading_loop_spec.
    cbn [QuizGrader.total_questions]. exact Hlen. }
  split; intros H.
  - destruct (basic_grading_all_match answers (map QuizGenerator.correct_answer qs)
                (map as_graded qs) Hne) as (_ & Hs & Hg); [|auto].
    intros i Hi. rewrite Hlen in Hi. rewrite Hkey by exact Hi. now apply H.
  - destruct (basic_grading_none_match answers (map QuizGenerator.correct_answer qs)
                (map as_graded qs) Hne) as (_ & Hs & Hg); [|auto].
    intros i Hi. rewrite Hlen in Hi. rewrite Hkey by exact Hi. now apply H.
Qed.

Lemma mock_quiz_first_option_is_key_witness :
  let quiz := QuizGenerator._generate_mock_quiz "AI" 3 "easy" "MCQ" in
  QuizGrader.score_percentage
    (QuizGrader._generate_mock_grading ["A"; " a "; "a"]
       (map QuizGenerator.correct_answer (QuizGenerator.questions quiz))
       (map as_graded (QuizGenerator.questions quiz)) "MCQ") = 100%Q.
Proof.
  cbv zeta.
  destruct (mock_quiz_first_option_is_key "AI" 3 "easy" "MCQ" "A" ["A"; " a "; "a"])
    as (_ & H & _).
  - lia.
  - left. split; reflexivity.
  - apply H. intros [|[|[|i]]] Hi; [reflexivity | reflexivity | reflexivity |].
    cbn in Hi. lia.
Defined.

(** *** A quiz read from plain text *)

Lemma read_from_more (seen : list string) (raw : string) (q : QuizGenerator.Question) :
  read_from seen q -> read_from (seen ++ [raw]) q.
Proof.
  intros (Hc & He & Ho). split; [exact Hc|]. split; [exact He|].
  intros o Hin. destruct (Ho o Hin) as (r & Hr & Hor & Hopt).
  exists r. split; [apply in_or_app; now left | auto].
Qed.

Lemma one_to_snoc (n : nat) : one_to (S n) = (one_to n ++ [Z.of_nat n + 1])%list.
Proof. unfold one_to. rewrite seq_S, map_app. reflexivity. Qed.

Lemma filter_snoc {A : Type} (f : A -> bool) (l : list A) (x : A) :
  filter f (l ++ [x]) = (filter f l ++ (if f x then [x] else []))%list.
Proof. rewrite filter_app. cbn. now destruct (f x). Qed.

Lemma parse_line_inv (n : Z) (seen : list string) (raw : string)
    (st : QuizGenerator.Parser) :
  parser_inv n seen st ->
  parser_inv n (seen ++ [raw]) (QuizGenerator.parse_line n st raw).
Proof.
  intros (Hcount & Hnum & Hread & Hcur).
  unfold QuizGenerator.parse_line. cbv zeta.
  fold (is_numbered raw). fold (is_option raw).
  destruct (is_numbered raw) eqn:En.
  - (* a numbered line *)
    unfold parser_inv. rewrite filter_snoc, En.
    unfold QuizGenerator.flush.
    destruct (QuizGenerator.current_question st) as [q|] eqn:Ecur.
    + destruct Hcur as (before & last & HN & Hq & Hqn & Hqr & Htexts & Hlen).
      destruct (Z.ltb_spec (QuizGenerator.question_count st) n) as [Hlt|Hge];
        cbn [QuizGenerator.parsed QuizGenerator.question_count
             QuizGenerator.current_question].
      * assert (Hb : (List.length before < Z.to_nat n)%nat) by lia.
        rewrite length_app. cbn [List.length].
        split; [lia|]. split.
        { rewrite map_app, Hnum. cbn [map]. rewrite Hqn, Hcount.
          rewrite Nat.add_1_r. now rewrite one_to_snoc. }
        split.
        { intros q' Hq'. apply in_app_or in Hq' as [Hq'|[<-|[]]];
            apply read_from_more; auto. }
        exists (before ++ [last])%list, raw. rewrite HN.
        split; [reflexivity|]. split; [reflexivity|]. split; [reflexivity|].
        split; [repeat split; intros o []|]. split.
        { rewrite map_app, Htexts. cbn [map]. rewrite Hq.
          rewrite (firstn_all2 before) by lia.
          rewrite firstn_all2 by (rewrite length_app; cbn; lia).
          now rewrite map_app. }
        rewrite length_app. cbn [List.length]. lia.
      * split; [exact Hcount|]. split; [exact Hnum|].
        split; [intros q' Hq'; apply read_from_more; auto|].
        exists (before ++ [last])%list, raw. rewrite HN.
        split; [reflexivity|]. split; [reflexivity|]. split; [reflexivity|].
        split; [repeat split; intros o []|].
        assert (Hb : (Z.to_nat n <= List.length before)%nat) by lia.
        split.
        { rewrite Htexts. rewrite firstn_app.
          replace (Z.to_nat n - List.length before)%nat with 0%nat by lia.
          cbn [firstn]. now rewrite app_nil_r. }
        rewrite length_app. cbn [List.length]. lia.
    + destruct Hcur as (HN & Hp).
      cbn [QuizGenerator.parsed QuizGenerator.question_count
           QuizGenerator.current_question].
      split; [exact Hcount|]. split; [exact Hnum|].
      split; [intros q' Hq'; apply read_from_more; auto|].
      exists [], raw. rewrite HN, Hp.
      split; [reflexivity|]. split; [reflexivity|]. split; [reflexivity|].
      split; [repeat split; intros o []|]. split; [now rewrite firstn_nil|].
      cbn. lia.
  - (* any other line *)
    assert (Hsame : filter is_numbered (seen ++ [raw]) = filter is_numbered seen)
      by (rewrite filter_snoc, En; apply app_nil_r).
    assert (Hkeep : parser_inv n (seen ++ [raw]) st).
    { unfold parser_inv. rewrite Hsame.
      split; [exact Hcount|]. split; [exact Hnum|].
      split; [intros q' Hq'; apply read_from_more; auto|].
      destruct (QuizGenerator.current_question st) as [q|]; [|exact Hcur].
      destruct Hcur as (before & last & HN & Hq & Hqn & Hqr & Htexts & Hlen).
      exists before, last. split; [exact HN|]. split; [exact Hq|]. split; [exact Hqn|].
      split; [now apply read_from_more|]. split; assumption. }
    destruct (is_option raw) eqn:Eo; [|exact Hkeep].
    destruct (QuizGenerator.current_question st) as [q|] eqn:Ecur; [|exact Hkeep].
    unfold parser_inv. rewrite Hsame.
    cbn [QuizGenerator.parsed QuizGenerator.question_count
         QuizGenerator.current_question].
    split; [exact Hcount|]. split; [exact Hnum|].
    split; [intros q' Hq'; apply read_from_more; auto|].
    destruct Hcur as (before & last & HN & Hq & Hqn & (Hc & He & Ho) & Htexts & Hlen).
    exists before, last. split; [exact HN|]. split; [exact Hq|]. split; [exact Hqn|].
    split; [|split; assumption].
    split; [exact Hc|]. split; [exact He|].
    cbn [QuizGenerator.add_option QuizGenerator.options]. intros o Hin.
    apply in_app_or in Hin as [Hin|[<-|[]]].
    + destruct (Ho o Hin) as (r & Hr & Hor & Hopt).
      exists r. split; [apply in_or_app; now left | auto].
    + exists raw. split; [apply in_or_app; right; now left | auto].
Qed.

Lemma parse_lines_inv (n : Z) (lines seen : list string) (st : QuizGenerator.Parser) :
  parser_inv n seen st ->
  parser_inv n (seen ++ lines) (fold_left (QuizGenerator.parse_line n) lines st).
Proof.
  revert seen st. induction lines as [|raw lines IH]; intros seen st H; cbn.
  - now rewrite app_nil_r.
  - replace (seen ++ raw :: lines)%list with ((seen ++ [raw]) ++ lines)%list
      by now rewrite <- app_assoc.
    apply IH. now apply parse_line_inv.
Qed.

(** X21: The quiz that is read from plain text has one question for each of
    the first [num_questions] lines that start with a number from "1." to
    "10.", in the order of the text and numbered 1, 2, 3, ... whatever
    numbers the lines carry; the question is the line without its first two
    characters; every question has the key "A", and its options are
    stripped lines of the text that start with "A)", "B)", "C)" or "D)";
    ["total_questions"] is the number of questions. *)
Theorem quiz_from_text_shape (text topic difficulty question_type : string)
    (num_questions : Z) :
  let quiz := QuizGenerator._create_quiz_from_text text topic difficulty question_type
                num_questions in
  let lines := QuizGenerator.split_on QuizGenerator.newline text in
  let k := Nat.min (List.length (numbered_lines text)) (Z.to_nat num_questions) in
  List.length (QuizGenerator.questions quiz) = k /\
  QuizGenerator.total_questions quiz = Z.of_nat k /\
  map QuizGenerator.question_number (QuizGenerator.questions quiz) = one_to k /\
  map QuizGenerator.question (QuizGenerator.questions quiz)
  = map question_text (firstn (Z.to_nat num_questions) (numbered_lines text)) /\
  (forall q, In q (QuizGenerator.questions quiz) ->
     QuizGenerator.correct_answer q = "A" /\
     forall o, In o (QuizGenerator.options q) ->
       exists raw, In raw lines /\ o = PyStr.strip raw /\ is_option raw = true).
Proof.
  cbv zeta. unfold QuizGenerator._create_quiz_from_text. cbv zeta.
  cbn [QuizGenerator.questions QuizGenerator.total_questions].
  set (lines := QuizGenerator.split_on QuizGenerator.newline text).
  set (st0 := {| QuizGenerator.current_question := None; QuizGenerator.parsed := [];
                 QuizGenerator.question_count := 0 |}).
  assert (H0 : parser_inv num_questions [] st0).
  { unfold parser_inv. cbn. split; [reflexivity|]. split; [reflexivity|].
    split; [intros q' []|]. split; reflexivity. }
  pose proof (parse_lines_inv num_questions lines [] st0 H0) as H.
  cbn [app] in H. fold (numbered_lines text) in *.
  set (st := fold_left (QuizGenerator.parse_line num_questions) lines st0) in *.
  destruct H as (Hcount & Hnum & Hread & Hcur).
  change (filter is_numbered lines) with (numbered_lines text) in Hcur.
  unfold QuizGenerator.flush.
  destruct (QuizGenerator.current_question st) as [q|] eqn:Ecur.
  - destruct Hcur as (before & last & HN & Hq & Hqn & Hqr & Htexts & Hlen).
    rewrite HN, length_app. cbn [List.length].
    destruct (Z.ltb_spec (QuizGenerator.question_count st) num_questions) as [Hlt|Hge];
      cbn [QuizGenerator.parsed].
    + assert (Hb : (List.length before < Z.to_nat num_questions)%nat) by lia.
      assert (Hk : Nat.min (List.length before + 1) (Z.to_nat num_questions)
                   = S (List.length (QuizGenerator.parsed st))) by lia.
      rewrite Hk, length_app. cbn [List.length].
      split; [lia|]. split; [f_equal; lia|]. split.
      { rewrite map_app, Hnum, one_to_snoc. cbn [map]. now rewrite Hqn, Hcount. }
      split.
      { rewrite map_app, Htexts. cbn [map]. rewrite Hq.
        rewrite (firstn_all2 before) by lia.
        rewrite firstn_all2 by (rewrite length_app; cbn; lia).
        now rewrite map_app. }
      intros q' Hq'. apply in_app_or in Hq' as [Hq'|[<-|[]]].
      * destruct (Hread q' Hq') as (Hc & _ & Ho). auto.
      * destruct Hqr as (Hc & _ & Ho). auto.
    + assert (Hb : (Z.to_nat num_questions <= List.length before)%nat) by lia.
      assert (Hk : Nat.min (List.length before + 1) (Z.to_nat num_questions)
                   = List.length (QuizGenerator.parsed st)) by lia.
      rewrite Hk. split; [reflexivity|]. split; [reflexivity|]. split; [exact Hnum|].
      split.
      { rewrite Htexts, firstn_app.
        replace (Z.to_nat num_questions - List.length before)%nat with 0%nat by lia.
        cbn [firstn]. now rewrite app_nil_r. }
      intros q' Hq'. destruct (Hread q' Hq') as (Hc & _ & Ho). auto.
  - destruct Hcur as (HN & Hp). rewrite HN, Hp. cbn [List.length Nat.min map].
    split; [reflexivity|]. split; [reflexivity|]. split; [reflexivity|].
    split; [now rewrite firstn_nil|]. intros q' [].
Qed.

(** *** The selection at the ends of the percentage scale *)








(** *** The order of the combined results *)





(** *** Reading the answer of the language model *)

Lemma without_cons (c a : ascii) (s : string) :
  without c (String a s) <-> Ascii.eqb a c = false /\ without c s.
Proof.
  unfold without. cbn. rewrite andb_true_iff, negb_true_iff. reflexivity.
Qed.

Lemma without_app (c : ascii) (s t : string) :
  without c (s ++ t) <-> without c s /\ without c t.
Proof.
  induction s as [|a s IH]; cbn [append].
  - unfold without at 2. cbn. tauto.
  - rewrite !without_cons, IH. tauto.
Qed.

Lemma find_from_none (c : ascii) (s : string) (i : Z) :
  without c s -> QuizParsing.find_from c s i = -1.
Proof.
  revert i. induction s as [|a s IH]; intros i H; [reflexivity|].
  apply without_cons in H as [Ha Hs]. cbn. rewrite Ha. now apply IH.
Qed.

Lemma find_from_first (c : ascii) (pre suf : string) (i : Z) :
  without c pre ->
  QuizParsing.find_from c (pre ++ String c suf) i = i + Z.of_nat (String.length pre).
Proof.
  revert i. induction pre as [|a pre IH]; intros i H.
  - cbn. rewrite Ascii.eqb_refl. lia.
  - apply without_cons in H as [Ha Hs]. cbn [append QuizParsing.find_from String.length].
    rewrite Ha, IH by exact Hs. lia.
Qed.

Lemma rfind_from_none (c : ascii) (s : string) (i last : Z) :
  without c s -> QuizParsing.rfind_from c s i last = last.
Proof.
  revert i last. induction s as [|a s IH]; intros i last H; [reflexivity|].
  apply without_cons in H as [Ha Hs]. cbn. rewrite Ha. now apply IH.
Qed.

Lemma rfind_from_last (c : ascii) (pre suf : string) (i last : Z) :
  without c suf ->
  QuizParsing.rfind_from c (pre ++ String c suf) i last
  = i + Z.of_nat (String.length pre).
Proof.
  intros H. revert i last. induction pre as [|a pre IH]; intros i last.
  - cbn. rewrite Ascii.eqb_refl, rfind_from_none by exact H. lia.
  - cbn [append QuizParsing.rfind_from String.length]. rewrite IH. lia.
Qed.

Lemma rfind_from_app (c : ascii) (pre x : string) (i last : Z) :
  without c x ->
  QuizParsing.rfind_from c (pre ++ x) i last = QuizParsing.rfind_from c pre i last.
Proof.
  intros H. revert i last. induction pre as [|a pre IH]; intros i last.
  - cbn. now apply rfind_from_none.
  - cbn [append QuizParsing.rfind_from]. apply IH.
Qed.

Lemma rfind_from_bounds (c : ascii) (s : string) (i last : Z) :
  -1 <= last < i ->
  -1 <= QuizParsing.rfind_from c s i last < i + Z.of_nat (String.length s).
Proof.
  revert i last. induction s as [|a s IH]; intros i last H.
  - cbn. lia.
  - cbn [QuizParsing.rfind_from String.length].
    destruct (Ascii.eqb a c).
    + pose proof (IH (i + 1) i ltac:(lia)). lia.
    + pose proof (IH (i + 1) last ltac:(lia)). lia.
Qed.

Lemma length_append (a b : string) :
  String.length (a ++ b) = (String.length a + String.length b)%nat.
Proof. induction a as [|c a IH]; cbn; [reflexivity | now rewrite IH]. Qed.

Lemma substring_skip (pre x : string) (m : nat) :
  substring (String.length pre) m (pre ++ x) = substring 0 m x.
Proof. induction pre as [|a pre IH]; [reflexivity | exact IH]. Qed.

Lemma substring_prefix (a b : string) :
  substring 0 (String.length a) (a ++ b) = a.
Proof.
  induction a as [|c a IH]; cbn.
  - now destruct b.
  - now rewrite IH.
Qed.

Lemma substring_none (n : nat) (s : string) : substring n 0 s = "".
Proof.
  revert n. induction s as [|a s IH]; intros [|n]; cbn; auto.
Qed.

(** X24: [_parse_quiz_result] builds the quiz from the plain text exactly when
    the answer has no opening brace; the test of [end_idx] never fails.
    With an opening brace, what lies between the first opening and the last
    closing brace, braces included, is given to [json.loads], whose value
    is returned as it is, and the mock quiz is returned when [json.loads]
    raises.  When no closing brace follows the first opening brace,
    [json.loads] gets the empty string, so that the result is the mock quiz
    and not the quiz read from the text. *)
Theorem parse_quiz_result_cases {J : Type} (json_loads : string -> option J)
    (result topic difficulty question_type : string) (num_questions : Z) :
  json_loads "" = None ->
  let r := QuizParsing._parse_quiz_result json_loads result topic difficulty
             question_type num_questions in
  let mock := QuizGenerator._generate_mock_quiz topic num_questions difficulty
                question_type in
  (without "{" result ->
     r = QuizParsing.Built
           (QuizGenerator._create_quiz_from_text result topic difficulty question_type
              num_questions)) /\
  (forall pre mid suf,
     result = pre ++ "{" ++ mid ++ "}" ++ suf -> without "{" pre -> without "}" suf ->
     r = match json_loads ("{" ++ mid ++ "}") with
         | Some quiz_data => QuizParsing.FromJson quiz_data
         | None => QuizParsing.Built mock
         end) /\
  (forall pre suf,
     result = pre ++ "{" ++ suf -> without "{" pre -> without "}" suf ->
     r = QuizParsing.Built mock).
Proof.
  intros Hempty. cbv zeta. unfold QuizParsing._parse_quiz_result. cbv zeta.
  split; [|split].
  - intros H. unfold QuizParsing.find. rewrite find_from_none by exact H. reflexivity.
  - intros pre mid suf Hres Hpre Hsuf.
    assert (Hfind : QuizParsing.find "{" result = Z.of_nat (String.length pre)).
    { rewrite Hres. unfold QuizParsing.find.
      change ("{" ++ mid ++ "}" ++ suf) with (String "{" (mid ++ "}" ++ suf)).
      now rewrite find_from_first by exact Hpre. }
    assert (Hrfind : QuizParsing.rfind "}" result
                     = Z.of_nat (String.length pre) + 1 + Z.of_nat (String.length mid)).
    { rewrite Hres. unfold QuizParsing.rfind.
      replace (pre ++ "{" ++ mid ++ "}" ++ suf)
        with ((pre ++ "{" ++ mid) ++ String "}" suf)
        by (rewrite !str_app_assoc; reflexivity).
      rewrite rfind_from_last by exact Hsuf.
      rewrite !length_append. cbn [String.length]. lia. }
    assert (Hslice : QuizParsing.slice (Z.of_nat (String.length pre))
                       (Z.of_nat (String.length pre) + 1 + Z.of_nat (String.length mid) + 1)
                       result
                     = "{" ++ mid ++ "}").
    { rewrite Hres. unfold QuizParsing.slice.
      replace (Z.to_nat (Z.of_nat (String.length pre))) with (String.length pre) by lia.
      replace (Z.to_nat (Z.of_nat (String.length pre) + 1 + Z.of_nat (String.length mid) + 1
                         - Z.of_nat (String.length pre)))
        with (String.length ("{" ++ mid ++ "}"))
        by (rewrite !length_append; cbn [String.length]; lia).
      replace (pre ++ "{" ++ mid ++ "}" ++ suf)
        with (pre ++ ("{" ++ mid ++ "}") ++ suf)
        by (rewrite !str_app_assoc; reflexivity).
      now rewrite substring_skip, substring_prefix. }
    rewrite Hfind, Hrfind, Hslice.
    destruct (Z.eqb_spec (Z.of_nat (String.length pre)) (-1)) as [E|_]; [lia|].
    destruct (Z.eqb_spec (Z.of_nat (String.length pre) + 1 + Z.of_nat (String.length mid) + 1)
                (-1)) as [E|_]; [lia|].
    reflexivity.
  - intros pre suf -> Hpre Hsuf.
    unfold QuizParsing.find, QuizParsing.rfind.
    change ("{" ++ suf) with (String "{" suf).
    rewrite find_from_first by exact Hpre.
    rewrite rfind_from_app
      by (apply without_cons; split; [reflexivity | exact Hsuf]).
    pose proof (rfind_from_bounds "}" pre 0 (-1) ltac:(lia)) as Hb.
    destruct (Z.eqb_spec (0 + Z.of_nat (String.length pre)) (-1)) as [E|_]; [lia|].
    destruct (Z.eqb_spec (QuizParsing.rfind_from "}" pre 0 (-1) + 1) (-1)) as [E|_]; [lia|].
    cbn [negb andb]. unfold QuizParsing.slice.
    replace (Z.to_nat (QuizParsing.rfind_from "}" pre 0 (-1) + 1
                       - (0 + Z.of_nat (String.length pre)))) with 0%nat by lia.
    now rewrite substring_none, Hempty.
Qed.

Lemma parse_quiz_result_cases_witness :
  QuizParsing._parse_quiz_result toy_json_loads "Here is } your quiz: { topic" "AI" "easy"
    "MCQ" 2
  = QuizParsing.Built (QuizGenerator._generate_mock_quiz "AI" 2 "easy" "MCQ") /\
  QuizParsing._parse_quiz_result toy_json_loads "Quiz: {x} done" "AI" "easy" "MCQ" 2
  = QuizParsing.FromJson "{x}".
Proof.
  destruct (parse_quiz_result_cases toy_json_loads "Here is } your quiz: { topic" "AI"
              "easy" "MCQ" 2 eq_refl) as (_ & _ & H3).
  destruct (parse_quiz_result_cases toy_json_loads "Quiz: {x} done" "AI"
              "easy" "MCQ" 2 eq_refl) as (_ & H2 & _).
  split.
  - apply (H3 "Here is } your quiz: " " topic"); reflexivity.
  - rewrite (H2 "Quiz: " "x" " done"); reflexivity.
Defined.
